(** * i3x client: connection layer, SSE stream reader, subscription registry

    A shallow embedding of the Python package [i3x] (modules [_transport],
    [_sse], [_subscription], [models], [errors]) and the properties its
    specification states about it.

    Conventions.
    - A Python [str] is a [string]; a character stands for the code point of
      the same number (U+0000 to U+00FF).
    - A decoded JSON value is a [json]; a Python [dict] is an association
      list in insertion order whose keys are pairwise distinct.
    - A Python function that may raise returns a [result]; the exception is
      a value of type [exn].
    - [json.loads], [str] on decoded values, the network and the scheduler
      are not part of the package: the development is parametric in them. *)

From Stdlib Require Import ZArith Lia Bool Ascii.
From stdpp Require Import base option list strings gmap.

Set Warnings "-register-all".
Local Open Scope Z_scope.
Local Open Scope nat_scope.

(** ** Python string primitives used by the package *)

Module PyStr.

Definition LF : ascii := "010"%char.

(** The one-character text ["\n"] and the blank-line separator ["\n\n"]. *)
Definition nl : string := String LF "".
Definition nlnl : string := String LF (String LF "").

(** [s.startswith(p)] *)
Fixpoint startswith (s p : string) {struct p} : bool :=
  match p, s with
  | EmptyString, _ => true
  | String b p', String a s' => Ascii.eqb a b && startswith s' p'
  | String _ _, EmptyString => false
  end.

(** [s[n:]] *)
Fixpoint slice_from (n : nat) (s : string) : string :=
  match n, s with
  | O, _ => s
  | S n', String _ s' => slice_from n' s'
  | S _, EmptyString => EmptyString
  end.

(** [s[:n]] *)
Fixpoint slice_to (n : nat) (s : string) : string :=
  match n, s with
  | O, _ => EmptyString
  | S n', String a s' => String a (slice_to n' s')
  | S _, EmptyString => EmptyString
  end.

(** [s.find(sub)]: index of the first occurrence, [None] for Python's -1. *)
Fixpoint find (s sub : string) : option nat :=
  match s with
  | EmptyString => if startswith EmptyString sub then Some 0 else None
  | String _ s' =>
      if startswith s sub then Some 0
      else match find s' sub with Some i => Some (S i) | None => None end
  end.

(** [sub in s] *)
Definition contains (sub s : string) : bool :=
  match find s sub with Some _ => true | None => false end.

(** [s.split(sep, 1)] where [sep in s]: the text before the first occurrence
    of [sep] and the text after it; [None] when [sep] does not occur (Python
    then returns the one-element list [[s]]). *)
Definition split_once (s sep : string) : option (string * string) :=
  match find s sep with
  | Some i => Some (slice_to i s, slice_from (i + String.length sep) s)
  | None => None
  end.

(** [s.split(c)] for a one-character separator [c]: never empty. *)
Fixpoint split_char (c : ascii) (s : string) : list string :=
  match s with
  | EmptyString => [EmptyString]
  | String a s' =>
      if Ascii.eqb a c then EmptyString :: split_char c s'
      else match split_char c s' with
           | h :: t => String a h :: t
           | [] => [String a EmptyString]
           end
  end.

(** [sep.join(parts)] *)
Definition join (sep : string) (parts : list string) : string :=
  String.concat sep parts.

(** [c.isspace()] on the code points below 256. *)
Definition isspace (c : ascii) : bool :=
  let n := nat_of_ascii c in
  ((9 <=? n) && (n <=? 13)) || ((28 <=? n) && (n <=? 32))
  || (n =? 133) || (n =? 160).

Fixpoint lstrip (s : string) : string :=
  match s with
  | EmptyString => EmptyString
  | String a s' => if isspace a then lstrip s' else s
  end.

Fixpoint rstrip (s : string) : string :=
  match s with
  | EmptyString => EmptyString
  | String a s' =>
      match rstrip s' with
      | EmptyString => if isspace a then EmptyString else String a EmptyString
      | r => String a r
      end
  end.

(** [s.strip()] *)
Definition strip (s : string) : string := rstrip (lstrip s).

(** The characters of [s] as one-character strings (iteration over a [str]). *)
Fixpoint chars (s : string) : list string :=
  match s with
  | EmptyString => []
  | String a s' => String a EmptyString :: chars s'
  end.

End PyStr.

(** ** Decoded JSON values and Python dicts *)

Inductive json : Type :=
| JNull
| JBool (b : bool)
| JInt (n : Z)
| JFloat (literal : string)
| JStr (s : string)
| JArr (items : list json)
| JObj (fields : list (string * json)).

Module Dict.

(** A [dict] with [str] keys, in insertion order. *)
Definition t (A : Type) : Type := list (string * A).

Definition keys {A} (d : t A) : list string := d.*1.

(** Well-formed dicts have pairwise distinct keys. *)
Definition wf {A} (d : t A) : Prop := NoDup (keys d).

(** [d.get(k)] *)
Fixpoint get {A} (d : t A) (k : string) : option A :=
  match d with
  | [] => None
  | (k', v) :: d' => if String.eqb k' k then Some v else get d' k
  end.

(** [k in d] *)
Definition mem {A} (k : string) (d : t A) : bool :=
  match get d k with Some _ => true | None => false end.

(** [d.get(k, dflt)] *)
Definition get_default {A} (d : t A) (k : string) (dflt : A) : A :=
  match get d k with Some v => v | None => dflt end.

(** [d[k] = v]: replaces the value of an existing key in place, appends a
    new key at the end. *)
Fixpoint set {A} (d : t A) (k : string) (v : A) : t A :=
  match d with
  | [] => [(k, v)]
  | (k', v') :: d' =>
      if String.eqb k' k then (k', v) :: d' else (k', v') :: set d' k v
  end.

End Dict.

(** ** errors.py: the exception hierarchy *)

Module Errors.

(** The classes of [errors.py]; [I3XError] is the base class. *)
Inductive error_class : Type :=
| I3XError
| ConnectionError
| AuthenticationError
| NotFoundError
| ServerError
| TimeoutError
| SubscriptionError
| StreamError.

Global Instance error_class_eq_dec : EqDecision error_class.
Proof. solve_decision. Defined.

(** An instance: [cls(message, status_code=...)]. *)
Record i3x_error : Type := mk_error {
  err_class : error_class;
  err_message : string;
  err_status_code : option Z
}.

(** Everything that can be raised in the modelled code: the package's own
    errors, the interpreter's errors on ill-shaped payloads, and the errors
    of the libraries [json] and [httpx]. *)
Inductive exn : Type :=
| Raised (e : i3x_error)
| AttributeError (msg : string)
| TypeError (msg : string)
| JSONDecodeError (msg : string)
| HttpxConnectError (msg : string)
| HttpxTimeoutException (msg : string)
| HttpxHTTPError (msg : string)
| OtherException (msg : string).
(* [HttpxHTTPError] is an [httpx.HTTPError] that is neither of the two
   before it; [OtherException] is any other subclass of [Exception]. *)

(** [str(exc)] *)
Definition exn_str (e : exn) : string :=
  match e with
  | Raised e => err_message e
  | AttributeError m | TypeError m | JSONDecodeError m
  | HttpxConnectError m | HttpxTimeoutException m | HttpxHTTPError m
  | OtherException m => m
  end.

Inductive result (A : Type) : Type :=
| Ok (a : A)
| Raise (e : exn).
Global Arguments Ok {A} a.
Global Arguments Raise {A} e.

Definition rbind {A B} (r : result A) (k : A -> result B) : result B :=
  match r with
  | Ok a => k a
  | Raise e => Raise e
  end.

(** [[f(x) for x in xs]], stopping at the first exception. *)
Fixpoint rmap {A B} (f : A -> result B) (xs : list A) : result (list B) :=
  match xs with
  | [] => Ok []
  | x :: xs' =>
      match f x with
      | Ok y => match rmap f xs' with
                | Ok ys => Ok (y :: ys)
                | Raise e => Raise e
                end
      | Raise e => Raise e
      end
  end.

End Errors.
Export Errors.

Notation "x <-r c1 ;; c2" := (rbind c1 (fun x => c2))
  (at level 100, c1 at next level, right associativity).

(** ** models.py *)

Module Models.

(** [type(v).__name__] of a decoded JSON value. *)
Definition type_name (v : json) : string :=
  match v with
  | JNull => "NoneType"
  | JBool _ => "bool"
  | JInt _ => "int"
  | JFloat _ => "float"
  | JStr _ => "str"
  | JArr _ => "list"
  | JObj _ => "dict"
  end.

(** The interpreter's error for [v.attr] on a value without that attribute. *)
Definition no_attribute {A} (v : json) (attr : string) : result A :=
  Raise (AttributeError
    ("'" +:+ type_name v +:+ "' object has no attribute '" +:+ attr +:+ "'")).

(** [iter(v)]: what a [for] loop over a decoded value visits. *)
Definition iterate (v : json) : result (list json) :=
  match v with
  | JArr items => Ok items
  | JObj fields => Ok (JStr <$> Dict.keys fields)
  | JStr s => Ok (JStr <$> PyStr.chars s)
  | _ => Raise (TypeError ("'" +:+ type_name v +:+ "' object is not iterable"))
  end.

Record VQT : Type := mk_VQT {
  value : json;
  quality : json;
  timestamp : json
}.

(** [VQT.from_dict] *)
Definition VQT_from_dict (data : json) : result VQT :=
  match data with
  | JObj d =>
      Ok {| value := Dict.get_default d "value" JNull;
            quality := Dict.get_default d "quality" (JStr "");
            timestamp := Dict.get_default d "timestamp" (JStr "") |}
  | _ => no_attribute data "get"
  end.

(** [[VQT.from_dict(v) for v in value_data.get("data", [])]] for a dict
    [value_data]. *)
Definition parse_vqts (value_data : Dict.t json) : result (list VQT) :=
  vs <-r iterate (Dict.get_default value_data "data" (JArr [])) ;;
  rmap VQT_from_dict vs.

Inductive LastKnownValue : Type := mk_LastKnownValue {
  element_id : string;
  data : list VQT;
  children : list (string * LastKnownValue)
}.

(** [LastKnownValue.from_response] *)
Fixpoint from_response (element_id : string) (value_data : json)
  : result LastKnownValue :=
  match value_data with
  | JObj d =>
      match parse_vqts d with
      | Raise e => Raise e
      | Ok vqts =>
          let fix loop (items : list (string * json))
                       (children : Dict.t LastKnownValue)
            : result (Dict.t LastKnownValue) :=
            match items with
            | [] => Ok children
            | (key, child_data) :: rest =>
                if String.eqb key "data" then loop rest children
                else match from_response key child_data with
                     | Raise e => Raise e
                     | Ok child => loop rest (Dict.set children key child)
                     end
            end in
          match loop d [] with
          | Raise e => Raise e
          | Ok children => Ok (mk_LastKnownValue element_id vqts children)
          end
      end
  | _ => no_attribute value_data "get"
  end.

(** A value of Python's type [Any] as it occurs in [ValueChange.children]:
    a decoded JSON value or a parsed snapshot record. *)
Inductive py_any : Type :=
| PyJson (v : json)
| PySnapshot (r : LastKnownValue).

Record ValueChange : Type := mk_ValueChange {
  vc_element_id : string;
  vc_data : list VQT;
  vc_children : list (string * py_any)
}.

(** [{k: v for k, v in value_data.items() if k != "data"}] *)
Definition child_data (value_data : Dict.t json) : Dict.t py_any :=
  fold_left
    (fun acc kv => if String.eqb kv.1 "data" then acc
                   else Dict.set acc kv.1 (PyJson kv.2))
    value_data [].

(** The body of the loop of [ValueChange.from_stream_event]. *)
Definition change_of_item (element_id : string) (value_data : json)
  : result ValueChange :=
  match value_data with
  | JObj vd =>
      vqts <-r parse_vqts vd ;;
      Ok (mk_ValueChange element_id vqts (child_data vd))
  | _ => no_attribute value_data "get"
  end.

(** [ValueChange.from_stream_event] *)
Definition from_stream_event (event_data : json) : result (list ValueChange) :=
  match event_data with
  | JObj d => rmap (fun kv => change_of_item kv.1 kv.2) d
  | _ => no_attribute event_data "items"
  end.

End Models.

(** ** _transport.py *)

Module Transport.

(** What the package reads of an [httpx.Response].  [body] is [None] for a
    response obtained with [stream=True] whose body has not been read:
    [httpx] then raises [ResponseNotRead] on [.text] and [.json()].  The
    chunks are what [response.stream.iter_text()] yields, and
    [stream_failure] the exception it ends with, if any. *)
Record response : Type := mk_response {
  status_code : Z;
  content_type : option string;
  body : option string;
  chunks : list string;
  stream_failure : option exn
}.

Record request : Type := mk_request {
  method : string;
  path : string;
  params : option json;
  payload : option json;
  streamed : bool
}.

(** The [httpx.Client] made by [open]; [client_id] is its identity. *)
Record httpx_client : Type := mk_client {
  client_id : nat;
  client_base_url : string;
  client_headers : Dict.t string
}.

(** The fields of a [Transport] (the timeout is passed through to [httpx]
    and plays no part here). *)
Record transport : Type := mk_transport {
  base_url : string;
  auth : option (string * string);
  client : option httpx_client
}.

(** What the outside observes: every request handed to [httpx], in order,
    the number of clients created, and the clients closed. *)
Record wire : Type := mk_wire {
  sent : list request;
  created : nat;
  closed : list nat
}.

Record state : Type := mk_state {
  this : transport;
  net : wire
}.

(** [_STATUS_MAP.get(status)] *)
Definition STATUS_MAP_get (status : Z) : option error_class :=
  if (status =? 401)%Z then Some AuthenticationError
  else if (status =? 403)%Z then Some AuthenticationError
  else if (status =? 404)%Z then Some NotFoundError
  else None.

Definition ResponseNotRead : exn :=
  OtherException
    "Attempted to access streaming response content, without having called `read()`.".

(** [response.text] *)
Definition text (r : response) : result string :=
  match body r with
  | Some t => Ok t
  | None => Raise ResponseNotRead
  end.

(** [base_url.rstrip("/")] *)
Fixpoint rstrip_slash (s : string) : string :=
  match s with
  | EmptyString => EmptyString
  | String a s' =>
      match rstrip_slash s' with
      | EmptyString =>
          if Ascii.eqb a "/" then EmptyString else String a EmptyString
      | r => String a r
      end
  end.

(** [Transport(base_url, auth)] *)
Definition init (base_url : string) (auth : option (string * string))
  : transport :=
  {| base_url := rstrip_slash base_url; auth := auth; client := None |}.

Definition is_open (t : transport) : bool :=
  match client t with Some _ => true | None => false end.

(** [close] *)
Definition close (s : state) : state :=
  match client (this s) with
  | Some c =>
      {| this := {| base_url := base_url (this s); auth := auth (this s);
                    client := None |};
         net := {| sent := sent (net s); created := created (net s);
                   closed := closed (net s) ++ [client_id c] |} |}
  | None => s
  end.

(** [_ensure_open] *)
Definition ensure_open (s : state) : result httpx_client :=
  match client (this s) with
  | None =>
      Raise (Raised (mk_error ConnectionError
                       "Transport is not connected. Call open() first." None))
  | Some c => Ok c
  end.

Section WithPython.

(** [json.loads] *)
Variable json_loads : string -> result json.
(** [str(v)] for a decoded value [v] that is not a [str]. *)
Variable py_str : json -> string.
(** The network and the server behind it: the outcome of handing a request
    to [httpx], given the requests handed over before. *)
Variable network : list request -> request -> result response.

(** [str(message)]: a [str] is itself. *)
Definition str_of (message : json) : string :=
  match message with
  | JStr s => s
  | v => py_str v
  end.

(** [response.json()] *)
Definition response_json (r : response) : result json :=
  t <-r text r ;;
  json_loads t.

(** The [try]/[except Exception] of [_check_status] that computes the
    message; the handler's own [response.text] may raise. *)
Definition error_message (r : response) : result string :=
  match response_json r with
  | Ok (JObj detail) =>
      match text r with
      | Raise e => text r
      | Ok t =>
          let dflt := Dict.get_default detail "message" (JStr t) in
          Ok (str_of (Dict.get_default detail "detail" dflt))
      end
  | Ok _ => text r
  | Raise _ => text r
  end.

(** [_check_status] *)
Definition check_status (r : response) : result unit :=
  if (status_code r <? 400)%Z then Ok tt
  else
    let error_cls :=
      match STATUS_MAP_get (status_code r) with
      | Some c => c
      | None => if (500 <=? status_code r)%Z then ServerError else I3XError
      end in
    message <-r error_message r ;;
    Raise (Raised (mk_error error_cls message (Some (status_code r)))).

(** Handing a request to [httpx]: it is recorded, and the network answers. *)
Definition send (s : state) (q : request) : state * result response :=
  ({| this := this s;
      net := {| sent := sent (net s) ++ [q]; created := created (net s);
                closed := closed (net s) |} |},
   network (sent (net s)) q).

(** [_request] *)
Definition request_ (s : state) (method path : string)
    (params payload : option json) : state * result json :=
  match send s (mk_request method path params payload false) with
  | (s', Raise (HttpxConnectError m)) =>
      (s', Raise (Raised (mk_error ConnectionError m None)))
  | (s', Raise (HttpxTimeoutException m)) =>
      (s', Raise (Raised (mk_error TimeoutError m None)))
  | (s', Raise (HttpxHTTPError m)) =>
      (s', Raise (Raised (mk_error I3XError m None)))
  | (s', Raise e) => (s', Raise e)
  | (s', Ok r) =>
      (s',
       _ <-r check_status r ;;
       if (status_code r =? 204)%Z then Ok JNull
       else if PyStr.contains "application/json"
                 (default "" (content_type r))
       then response_json r
       else t <-r text r ;; Ok (JStr t))
  end.

(** [get], [post], [put], [delete] *)
Definition get (s : state) (path : string) (params : option json)
  : state * result json :=
  match ensure_open s with
  | Raise e => (s, Raise e)
  | Ok _ => request_ s "GET" path params None
  end.

Definition post (s : state) (path : string) (payload : option json)
  : state * result json :=
  match ensure_open s with
  | Raise e => (s, Raise e)
  | Ok _ => request_ s "POST" path None payload
  end.

Definition put (s : state) (path : string) (payload : option json)
  : state * result json :=
  match ensure_open s with
  | Raise e => (s, Raise e)
  | Ok _ => request_ s "PUT" path None payload
  end.

Definition delete (s : state) (path : string) : state * result json :=
  match ensure_open s with
  | Raise e => (s, Raise e)
  | Ok _ => request_ s "DELETE" path None None
  end.

(** [stream_get] *)
Definition stream_get (s : state) (path : string) : state * result response :=
  match ensure_open s with
  | Raise e => (s, Raise e)
  | Ok _ =>
      match send s (mk_request "GET" path None None true) with
      | (s', Raise (HttpxConnectError m)) =>
          (s', Raise (Raised (mk_error ConnectionError m None)))
      | (s', Raise (HttpxTimeoutException m)) =>
          (s', Raise (Raised (mk_error TimeoutError m None)))
      | (s', Raise e) => (s', Raise e)
      | (s', Ok r) => (s', _ <-r check_status r ;; Ok r)
      end
  end.

(** The headers [open] gives the client. *)
Definition auth_headers (a : option (string * string)) : Dict.t string :=
  match a with
  | Some (key, secret) =>
      Dict.set (Dict.set [] "X-API-Key" key) "X-API-Secret" secret
  | None => []
  end.

(** [self._client = httpx.Client(base_url=..., headers=..., timeout=...)] *)
Definition new_client (s : state) : state :=
  let c := {| client_id := created (net s);
              client_base_url := base_url (this s);
              client_headers := auth_headers (auth (this s)) |} in
  {| this := {| base_url := base_url (this s); auth := auth (this s);
                client := Some c |};
     net := {| sent := sent (net s); created := S (created (net s));
               closed := closed (net s) |} |}.

(** [open]: a no-op on an open transport; otherwise a client is created and
    probed with [GET /namespaces]; any exception of the probe closes the
    client again and is re-raised. *)
Definition open (s : state) : state * result unit :=
  match client (this s) with
  | Some _ => (s, Ok tt)
  | None =>
      match get (new_client s) "/namespaces" None with
      | (s2, Raise e) => (close s2, Raise e)
      | (s2, Ok _) => (s2, Ok tt)
      end
  end.

End WithPython.

End Transport.

(** ** _sse.py *)

Module SSE.
Import Models.

(** What the reader thread does to the outside, on a logical clock that
    advances by one with every chunk received and every frame processed:
    the calls of [on_event] and of [on_error], each with the time of the
    call, and whether the response has been closed. *)
Record world : Type := mk_world {
  now : nat;
  delivered : list (nat * list ValueChange);
  reported : list (nat * i3x_error);
  response_closed : bool
}.

Definition start_world : world := mk_world 0 [] [] false.

(** A computation of the reader thread. *)
Definition M (A : Type) : Type := world -> world * result A.

Definition ret {A} (a : A) : M A := fun w => (w, Ok a).

Definition bind {A B} (m : M A) (k : A -> M B) : M B :=
  fun w => match m w with
           | (w', Ok a) => k a w'
           | (w', Raise e) => (w', Raise e)
           end.

Definition lift {A} (r : result A) : M A := fun w => (w, r).

Definition tick : M unit :=
  fun w => (mk_world (S (now w)) (delivered w) (reported w) (response_closed w),
            Ok tt).

(** [self._on_event(changes)]; the sink the client installs,
    [Client._handle_value_changes], catches what the user callback raises. *)
Definition on_event (changes : list ValueChange) : M unit :=
  fun w => (mk_world (now w) (delivered w ++ [(now w, changes)]) (reported w)
                     (response_closed w),
            Ok tt).

(** [self._on_error(error)] *)
Definition on_error (error : i3x_error) : M unit :=
  fun w => (mk_world (now w) (delivered w) (reported w ++ [(now w, error)])
                     (response_closed w),
            Ok tt).

(** [response.close()] *)
Definition close_response : M unit :=
  fun w => (mk_world (now w) (delivered w) (reported w) true, Ok tt).

End SSE.

Notation "x <- c1 ;;; c2" := (SSE.bind c1 (fun x => c2))
  (at level 100, c1 at next level, right associativity).
Notation "c1 ;;; c2" := (SSE.bind c1 (fun _ => c2))
  (at level 100, right associativity).

Module SSEStream.
Import Models SSE.

Section Reader.

(** [json.loads] *)
Variable json_loads : string -> result json.
(** [self._stop_event.is_set()] as a function of the reader's clock; the flag
    is set by another thread. *)
Variable stop_is_set : nat -> bool.

(** The first loop of [_process_event_text]. *)
Definition data_lines (event_text : string) : list string :=
  fold_left
    (fun data_lines line =>
       if PyStr.startswith line "data:"
       then data_lines ++ [PyStr.strip (PyStr.slice_from 5 line)]
       else if PyStr.startswith line "data: "
       then data_lines ++ [PyStr.slice_from 6 line]
       else data_lines)
    (PyStr.split_char PyStr.LF event_text) [].

(** [if changes: self._on_event(changes)] *)
Definition deliver (changes : list ValueChange) : M unit :=
  match changes with
  | [] => ret tt
  | _ :: _ => on_event changes
  end.

(** [for item in parsed: ...] *)
Fixpoint for_items (parsed : list json) : M unit :=
  match parsed with
  | [] => ret tt
  | item :: rest =>
      changes <- lift (from_stream_event item) ;;;
      deliver changes ;;;
      for_items rest
  end.

(** [_process_event_text] *)
Definition process_event_text (event_text : string) : M unit :=
  match data_lines event_text with
  | [] => ret tt
  | data_lines =>
      let data_str := PyStr.join PyStr.nl data_lines in
      match json_loads data_str with
      | Raise (JSONDecodeError _) => ret tt
      | Raise exc => lift (Raise exc)
      | Ok (JArr parsed) => for_items parsed
      | Ok (JObj d) =>
          changes <- lift (from_stream_event (JObj d)) ;;;
          deliver changes
      | Ok _ => ret tt
      end
  end.

(** The inner loop of [_read_events],
    [while "\n\n" in buffer: event_text, buffer = buffer.split("\n\n", 1); ...];
    it returns the buffer it leaves.  Every turn removes at least two
    characters, so [String.length buffer] turns are enough. *)
Fixpoint drain (fuel : nat) (buffer : string) : M string :=
  match PyStr.split_once buffer PyStr.nlnl with
  | None => ret buffer
  | Some (event_text, rest) =>
      match fuel with
      | O => ret buffer
      | S fuel' =>
          process_event_text event_text ;;;
          tick ;;;
          drain fuel' rest
      end
  end.

(** The outer loop of [_read_events] over the chunks still to come. *)
Fixpoint read_chunks (chunks : list string) (failure : option exn)
    (buffer : string) : M unit :=
  match chunks with
  | [] => match failure with
          | Some e => lift (Raise e)
          | None => ret tt
          end
  | chunk :: rest =>
      fun w =>
        if stop_is_set (now w) then (w, Ok tt)
        else (tick ;;;
              buffer' <- drain (String.length (buffer +:+ chunk))
                               (buffer +:+ chunk) ;;;
              read_chunks rest failure buffer') w
  end.

(** [_read_events] *)
Definition read_events (response : Transport.response) : M unit :=
  read_chunks (Transport.chunks response) (Transport.stream_failure response)
              "".

(** [_run], given what [self._transport.stream_get(path)] did. *)
Definition run_on (opened : result Transport.response) : M unit :=
  match opened with
  | Raise exc =>
      on_error (mk_error StreamError
                  ("Failed to open SSE stream: " +:+ exn_str exc) None)
  | Ok response =>
      fun w =>
        match read_events response w with
        | (w', Ok _) => close_response w'
        | (w', Raise exc) =>
            if stop_is_set (now w') then close_response w'
            else (on_error (mk_error StreamError
                              ("SSE stream error: " +:+ exn_str exc) None) ;;;
                  close_response) w'
        end
  end.

End Reader.

(** The path [_run] asks for. *)
Definition stream_path (subscription_id : string) : string :=
  "/subscriptions/" +:+ subscription_id +:+ "/stream".

(** [_run] on a transport. *)
Definition run (json_loads : string -> result json) (py_str : json -> string)
    (network : list Transport.request -> Transport.request
               -> result Transport.response)
    (stop_is_set : nat -> bool)
    (subscription_id : string) (s : Transport.state)
  : Transport.state * (world * result unit) :=
  let r := Transport.stream_get json_loads py_str network s
             (stream_path subscription_id) in
  (r.1, run_on json_loads stop_is_set r.2 start_world).

(** The fields of an [SSEStream] the registry acts on: the stop flag and the
    thread, by its number. *)
Record reader : Type := mk_reader {
  subscription_id : string;
  stop_event : bool;
  thread : option nat
}.

(** [is_running]: the thread exists and is alive; [alive] is the
    scheduler's say on a thread. *)
Definition is_running (alive : nat -> bool) (r : reader) : bool :=
  match thread r with
  | Some t => alive t
  | None => false
  end.

(** [start], where [threads] counts the threads launched so far. *)
Definition start (alive : nat -> bool) (r : reader) (threads : nat)
  : reader * nat :=
  if is_running alive r then (r, threads)
  else (mk_reader (subscription_id r) false (Some threads), S threads).

(** [stop]: sets the flag, waits for the thread for at most five
    seconds and forgets it. *)
Definition stop (r : reader) : reader :=
  mk_reader (subscription_id r) true None.

End SSEStream.

(** ** _subscription.py *)

Module SubscriptionManager.
Import SSEStream.

(** A manager: [_streams] maps a subscription id to a reader object, by its
    address in [objects], the readers constructed so far. *)
Record manager : Type := mk_manager {
  streams : gmap string nat;
  objects : list reader;
  threads : nat
}.

Definition init : manager := mk_manager ∅ [] 0.

(** [add] *)
Definition add (alive : nat -> bool) (m : manager) (sid : string) : manager :=
  match streams m !! sid with
  | Some _ => m
  | None =>
      let stream := mk_reader sid false None in
      let address := length (objects m) in
      let started := start alive stream (threads m) in
      mk_manager (<[sid := address]> (streams m))
                 (objects m ++ [started.1])
                 started.2
  end.

(** [remove] *)
Definition remove (m : manager) (sid : string) : manager :=
  match streams m !! sid with
  | Some address =>
      mk_manager (base.delete sid (streams m))
                 (alter stop address (objects m))
                 (threads m)
  | None => m
  end.

(** [stop_all] *)
Definition stop_all (m : manager) : manager :=
  mk_manager ∅
             (map_fold (fun _ address objs => alter stop address objs)
                       (objects m) (streams m))
             (threads m).

(** [is_streaming] *)
Definition is_streaming (alive : nat -> bool) (m : manager) (sid : string)
  : bool :=
  match streams m !! sid with
  | Some address =>
      match objects m !! address with
      | Some r => is_running alive r
      | None => false
      end
  | None => false
  end.

(** The calls a client makes on its manager. *)
Inductive call : Type :=
| Add (sid : string)
| Remove (sid : string)
| StopAll.

Definition step (alive : nat -> bool) (m : manager) (c : call) : manager :=
  match c with
  | Add sid => add alive m sid
  | Remove sid => remove m sid
  | StopAll => stop_all m
  end.

Definition run (alive : nat -> bool) (cs : list call) : manager :=
  fold_left (step alive) cs init.

(** A reader the manager has started and not stopped. *)
Definition live (r : reader) : bool :=
  negb (stop_event r) && bool_decide (is_Some (thread r)).

(** The addresses of the live readers bound to [sid]. *)
Definition live_readers (m : manager) (sid : string) : list nat :=
  filter (fun a => match objects m !! a with
                   | Some r => live r && String.eqb (subscription_id r) sid
                   | None => false
                   end = true)
         (seq 0 (length (objects m))).

End SubscriptionManager.

(** ** client.py: connection lifecycle, stream control and dispatch *)

Module Client.
Import SSEStream SubscriptionManager.

(** What a user callback does when it is called is outside the package: a
    callback is given by what it raises, if anything. *)
Record callbacks : Type := mk_callbacks {
  on_connect : option (result unit);
  on_disconnect : option (result unit);
  on_value_change : option (Models.ValueChange -> result unit);
  on_error : option (exn -> result unit)
}.

(** What the client does to the outside: the callbacks it calls and what it
    logs. *)
Inductive event : Type :=
| CalledOnConnect
| CalledOnDisconnect
| CalledOnValueChange (change : Models.ValueChange)
| CalledOnError (error : exn)
| LoggedException (msg : string)
| LoggedError (msg : string).

(** The fields of a [Client].  [retired] keeps the managers the client no
    longer refers to, as it left them: their readers are still objects of
    the program. *)
Record client : Type := mk_client {
  transport : Transport.state;
  sub_manager : option manager;
  retired : list manager;
  events : list event
}.

(** [Client(base_url, auth)] *)
Definition init (base_url : string) (auth : option (string * string))
  : client :=
  mk_client (Transport.mk_state (Transport.init base_url auth)
                                (Transport.mk_wire [] 0 []))
            None [] [].

(** [is_connected] *)
Definition is_connected (c : client) : bool :=
  Transport.is_open (Transport.this (transport c)).

Section WithEnvironment.

Variable json_loads : string -> result json.
Variable py_str : json -> string.
Variable network
  : list Transport.request -> Transport.request -> result Transport.response.
(** The scheduler's say on a thread. *)
Variable alive : nat -> bool.
(** The callbacks the user has installed. *)
Variable cb : callbacks.

(** [connect] *)
Definition connect (c : client) : client * result unit :=
  match Transport.open json_loads py_str network (transport c) with
  | (t, Raise e) =>
      (mk_client t (sub_manager c) (retired c) (events c), Raise e)
  | (t, Ok _) =>
      let retired' :=
        match sub_manager c with
        | Some old => retired c ++ [old]
        | None => retired c
        end in
      match on_connect cb with
      | Some outcome =>
          (mk_client t (Some SubscriptionManager.init) retired'
                     (events c ++ [CalledOnConnect]),
           outcome)
      | None =>
          (mk_client t (Some SubscriptionManager.init) retired' (events c),
           Ok tt)
      end
  end.

(** [disconnect] *)
Definition disconnect (c : client) : client * result unit :=
  let retired' :=
    match sub_manager c with
    | Some m => retired c ++ [stop_all m]
    | None => retired c
    end in
  let t := Transport.close (transport c) in
  match on_disconnect cb with
  | Some outcome =>
      (mk_client t None retired' (events c ++ [CalledOnDisconnect]), outcome)
  | None => (mk_client t None retired' (events c), Ok tt)
  end.

(** [start_stream] *)
Definition start_stream (c : client) (subscription_id : string) : client :=
  match sub_manager c with
  | Some m =>
      mk_client (transport c) (Some (add alive m subscription_id))
                (retired c) (events c)
  | None => c
  end.

(** [stop_stream] *)
Definition stop_stream (c : client) (subscription_id : string) : client :=
  match sub_manager c with
  | Some m =>
      mk_client (transport c) (Some (remove m subscription_id))
                (retired c) (events c)
  | None => c
  end.

(** [unsubscribe], on the id of the subscription. *)
Definition unsubscribe (c : client) (sub_id : string) : client * result unit :=
  let c1 := stop_stream c sub_id in
  match Transport.delete json_loads py_str network (transport c1)
          ("/subscriptions/" +:+ sub_id) with
  | (t, Raise e) =>
      (mk_client t (sub_manager c1) (retired c1) (events c1), Raise e)
  | (t, Ok _) =>
      (mk_client t (sub_manager c1) (retired c1) (events c1), Ok tt)
  end.

(** The loop of [_handle_value_changes]: an exception of the callback is
    logged and the loop goes on. *)
Fixpoint dispatch (f : Models.ValueChange -> result unit)
    (changes : list Models.ValueChange) (log : list event) : list event :=
  match changes with
  | [] => log
  | change :: rest =>
      match f change with
      | Ok _ => dispatch f rest (log ++ [CalledOnValueChange change])
      | Raise _ =>
          dispatch f rest
            (log ++ [CalledOnValueChange change;
                     LoggedException "Error in on_value_change callback"])
      end
  end.

(** [_handle_value_changes] *)
Definition handle_value_changes (c : client)
    (changes : list Models.ValueChange) : client :=
  match on_value_change cb with
  | Some f =>
      mk_client (transport c) (sub_manager c) (retired c)
                (dispatch f changes (events c))
  | None => c
  end.

(** [_handle_error] *)
Definition handle_error (c : client) (error : exn) : client :=
  match on_error cb with
  | Some f =>
      match f error with
      | Ok _ =>
          mk_client (transport c) (sub_manager c) (retired c)
                    (events c ++ [CalledOnError error])
      | Raise _ =>
          mk_client (transport c) (sub_manager c) (retired c)
                    (events c ++ [CalledOnError error;
                                  LoggedException "Error in on_error callback"])
      end
  | None =>
      mk_client (transport c) (sub_manager c) (retired c)
                (events c ++ [LoggedError ("Unhandled i3x error: "
                                           +:+ exn_str error)])
  end.

(** The calls a user makes on a client. *)
Inductive call : Type :=
| Connect
| Disconnect
| StartStream (subscription_id : string)
| StopStream (subscription_id : string)
| Unsubscribe (sub_id : string).

Definition step (c : client) (k : call) : client :=
  match k with
  | Connect => (connect c).1
  | Disconnect => (disconnect c).1
  | StartStream sid => start_stream c sid
  | StopStream sid => stop_stream c sid
  | Unsubscribe sid => (unsubscribe c sid).1
  end.

Definition run (base_url : string) (auth : option (string * string))
    (ks : list call) : client :=
  fold_left step ks (init base_url auth).

End WithEnvironment.

End Client.

(** ** A reference JSON decoder

    [json.loads] belongs to Python's standard library and is a parameter of
    the development.  To run the model on concrete frames, this decoder
    reads the JSON grammar of RFC 8259; an escape [\uXXXX] above U+00FF is
    outside the alphabet of the model and is refused. *)

Module JsonRef.

Definition is_ws (c : ascii) : bool :=
  match c with
  | " " | "009" | "010" | "013" => true
  | _ => false
  end%char.

Fixpoint skip_ws (s : string) : string :=
  match s with
  | String a s' => if is_ws a then skip_ws s' else s
  | EmptyString => EmptyString
  end.

Definition digit (c : ascii) : option Z :=
  let n := nat_of_ascii c in
  if (48 <=? n) && (n <=? 57) then Some (Z.of_nat (n - 48)) else None.

Definition hex (c : ascii) : option nat :=
  let n := nat_of_ascii c in
  if (48 <=? n) && (n <=? 57) then Some (n - 48)
  else if (65 <=? n) && (n <=? 70) then Some (n - 55)
  else if (97 <=? n) && (n <=? 102) then Some (n - 87)
  else None.

(** The longest prefix of digits, and what follows it. *)
Fixpoint digits (s : string) : string * string :=
  match s with
  | String a s' =>
      match digit a with
      | Some _ => let (d, r) := digits s' in (String a d, r)
      | None => (EmptyString, s)
      end
  | EmptyString => (EmptyString, EmptyString)
  end.

Fixpoint decimal (acc : Z) (s : string) : Z :=
  match s with
  | String a s' =>
      match digit a with
      | Some d => decimal (10 * acc + d)%Z s'
      | None => acc
      end
  | EmptyString => acc
  end.

(** [int] of the RFC: a single zero, or digits that start with a non-zero. *)
Definition int_part (s : string) : string * string :=
  match s with
  | String "0" r => ("0", r)
  | _ => digits s
  end.

Definition frac_part (s : string) : string * string :=
  match s with
  | String "." r =>
      match digits r with
      | (EmptyString, _) => (EmptyString, s)
      | (d, r') => (String "." d, r')
      end
  | _ => (EmptyString, s)
  end.

Definition exp_part (s : string) : string * string :=
  match s with
  | String e r =>
      if Ascii.eqb e "e" || Ascii.eqb e "E" then
        let (sign, r1) :=
          match r with
          | String c r' =>
              if Ascii.eqb c "+" || Ascii.eqb c "-"
              then (String c EmptyString, r') else (EmptyString, r)
          | EmptyString => (EmptyString, r)
          end in
        match digits r1 with
        | (EmptyString, _) => (EmptyString, s)
        | (d, r2) => (String e (sign +:+ d), r2)
        end
      else (EmptyString, s)
  | EmptyString => (EmptyString, s)
  end.

(** A number: an [int] for an integer literal, a [float] otherwise. *)
Definition number (s : string) : option (json * string) :=
  let (sign, s1) :=
    match s with
    | String "-" r => ("-", r)
    | _ => (EmptyString, s)
    end in
  match int_part s1 with
  | (EmptyString, _) => None
  | (ip, s2) =>
      let (fp, s3) := frac_part s2 in
      let (ep, s4) := exp_part s3 in
      match fp, ep with
      | EmptyString, EmptyString =>
          Some (JInt (if String.eqb sign "-" then - decimal 0 ip
                      else decimal 0 ip)%Z, s4)
      | _, _ => Some (JFloat (sign +:+ ip +:+ fp +:+ ep), s4)
      end
  end.

(** The characters of a string literal after its opening quote, up to the
    closing quote. *)
Fixpoint string_body (s : string) : option (string * string) :=
  match s with
  | EmptyString => None
  | String "034" r => Some (EmptyString, r)
  | String "\" (String "u" (String h1 (String h2 (String h3 (String h4 r))))) =>
      match hex h1, hex h2, hex h3, hex h4 with
      | Some 0, Some 0, Some a, Some b =>
          match string_body r with
          | Some (t, r') => Some (String (ascii_of_nat (16 * a + b)) t, r')
          | None => None
          end
      | _, _, _, _ => None
      end
  | String "\" (String c r) =>
      let unescaped :=
        match c with
        | "034" => Some "034"
        | "\" => Some "\"
        | "/" => Some "/"
        | "b" => Some "008"
        | "f" => Some "012"
        | "n" => Some "010"
        | "r" => Some "013"
        | "t" => Some "009"
        | _ => None
        end%char in
      match unescaped, string_body r with
      | Some a, Some (t, r') => Some (String a t, r')
      | _, _ => None
      end
  | String a r =>
      if (nat_of_ascii a <? 32)%nat then None
      else match string_body r with
           | Some (t, r') => Some (String a t, r')
           | None => None
           end
  end%char.

Fixpoint value (fuel : nat) (s : string) : option (json * string) :=
  match fuel with
  | O => None
  | S fuel' =>
      match skip_ws s with
      | String "{" r =>
          match skip_ws r with
          | String "}" r' => Some (JObj [], r')
          | _ => match members fuel' r [] with
                 | Some (d, r') => Some (JObj d, r')
                 | None => None
                 end
          end
      | String "[" r =>
          match skip_ws r with
          | String "]" r' => Some (JArr [], r')
          | _ => match elements fuel' r [] with
                 | Some (l, r') => Some (JArr l, r')
                 | None => None
                 end
          end
      | String "034" r =>
          match string_body r with
          | Some (t, r') => Some (JStr t, r')
          | None => None
          end
      | String "t" (String "r" (String "u" (String "e" r))) =>
          Some (JBool true, r)
      | String "f" (String "a" (String "l" (String "s" (String "e" r)))) =>
          Some (JBool false, r)
      | String "n" (String "u" (String "l" (String "l" r))) => Some (JNull, r)
      | t => number t
      end
  end%char
with elements (fuel : nat) (s : string) (acc : list json)
  : option (list json * string) :=
  match fuel with
  | O => None
  | S fuel' =>
      match value fuel' s with
      | Some (v, r) =>
          match skip_ws r with
          | String "," r' => elements fuel' r' (acc ++ [v])
          | String "]" r' => Some (acc ++ [v], r')
          | _ => None
          end
      | None => None
      end
  end%char
with members (fuel : nat) (s : string) (acc : Dict.t json)
  : option (Dict.t json * string) :=
  match fuel with
  | O => None
  | S fuel' =>
      match skip_ws s with
      | String "034" r =>
          match string_body r with
          | Some (k, r1) =>
              match skip_ws r1 with
              | String ":" r2 =>
                  match value fuel' r2 with
                  | Some (v, r3) =>
                      match skip_ws r3 with
                      | String "," r4 => members fuel' r4 (Dict.set acc k v)
                      | String "}" r4 => Some (Dict.set acc k v, r4)
                      | _ => None
                      end
                  | None => None
                  end
              | _ => None
              end
          | None => None
          end
      | _ => None
      end
  end%char.

(** The whole text must be one value, surrounded by white space at most. *)
Definition decode (s : string) : option json :=
  match value (S (String.length s)) s with
  | Some (v, r) =>
      match skip_ws r with
      | EmptyString => Some v
      | _ => None
      end
  | None => None
  end.

(** [json.loads] on the texts of the examples: a text that is not JSON
    raises [json.JSONDecodeError]. *)
Definition loads (s : string) : result json :=
  match decode s with
  | Some v => Ok v
  | None => Raise (JSONDecodeError "Expecting value")
  end.

(** The recursion limit of the interpreter, [sys.getrecursionlimit()], as
    it is set by default. *)
Definition recursion_limit : nat := 1000.

(** [n] opening brackets, and the opening brackets a text starts with. *)
Fixpoint brackets (n : nat) : string :=
  match n with
  | O => ""
  | S n' => String "[" (brackets n')
  end.

Fixpoint leading_brackets (s : string) : nat :=
  match s with
  | String "[" s' => S (leading_brackets s')
  | _ => 0
  end.

(** [json.loads] as CPython runs it: the decoder calls itself for every
    nested array, so that a text that opens more arrays than the recursion
    limit allows raises [RecursionError], a [RuntimeError] and no
    [json.JSONDecodeError], before the rest of the text is read. *)
Definition loads_bounded (s : string) : result json :=
  if recursion_limit <=? leading_brackets s
  then Raise (OtherException
                ("maximum recursion depth exceeded "
                 +:+ "while decoding a JSON array from a unicode string"))
  else loads s.

(** Writing JSON in examples: an apostrophe stands for a double quote and a
    vertical bar for a line feed. *)
Fixpoint txt (s : string) : string :=
  match s with
  | EmptyString => EmptyString
  | String a s' =>
      String (if Ascii.eqb a "'" then "034"
              else if Ascii.eqb a "|" then PyStr.LF else a)%char
             (txt s')
  end.

(** [str(v)] on the decoded values that occur in the examples: a [str] is
    itself, [None] prints as [None]. *)
Definition str (v : json) : string :=
  match v with
  | JStr s => s
  | JNull => "None"
  | JBool true => "True"
  | JBool false => "False"
  | _ => "<object>"
  end.

End JsonRef.

(** * What the properties are stated with *)

(** ** Observing the stream reader *)

Module Reading.
Import Models SSE SSEStream.

(** The decoded update batches handed to the sink so far, in order. *)
Definition batches (w : world) : list (list ValueChange) := (delivered w).*2.

(** The errors handed to the error sink so far, in order. *)
Definition failures (w : world) : list i3x_error := (reported w).*2.

(** [emit bs w]: the sink is called on each batch of [bs] in turn, at the
    time of [w]. *)
Definition emit (bs : list (list ValueChange)) (w : world) : world :=
  mk_world (now w) (delivered w ++ map (pair (now w)) bs) (reported w)
           (response_closed w).

(** The clock advanced by one. *)
Definition tock (w : world) : world :=
  mk_world (S (now w)) (delivered w) (reported w) (response_closed w).

(** Two worlds that differ in their clocks and time stamps at most. *)
Definition sim (w1 w2 : world) : Prop :=
  batches w1 = batches w2 /\ failures w1 = failures w2 /\
  response_closed w1 = response_closed w2.

Definition sim_out {A} (p1 p2 : world * result A) : Prop :=
  sim p1.1 p2.1 /\ p1.2 = p2.2.

(** The stop flag that is never set. *)
Definition never : nat -> bool := fun _ => false.

(** Cancellation as the specification words it: no sink call is made at a
    time when the flag is set. *)
Definition no_delivery_once_stopped (stop : nat -> bool) (w : world) : Prop :=
  forall t changes, (t, changes) ∈ delivered w -> stop t = false.

(** The whole text of a sequence of chunks. *)
Definition whole (chunks : list string) : string :=
  foldr String.append "" chunks.

(** A streaming response that delivers [chunks]. *)
Definition response_of (chunks : list string) (failure : option exn)
  : Transport.response :=
  Transport.mk_response 200 None None chunks failure.

(** A frame as it is cut off the wire: the first blank line after its
    start is the one that ends it. *)
Definition is_frame (f : string) : Prop :=
  PyStr.split_once (f +:+ PyStr.nlnl) PyStr.nlnl = Some (f, "").

(** Frames on the wire, each followed by a blank line. *)
Definition on_wire (fs : list string) : string :=
  foldr (fun f acc => f +:+ PyStr.nlnl +:+ acc) "" fs.

(** The text [_process_event_text] hands to [json.loads]. *)
Definition data_str (event_text : string) : string :=
  PyStr.join PyStr.nl (data_lines event_text).

(** The lines of a frame block that start with the marker. *)
Definition marked_lines (event_text : string) : list string :=
  filter (fun line => PyStr.startswith line "data:" = true)
         (PyStr.split_char PyStr.LF event_text).

(** The payload as the specification words it: the text after the marker,
    without one leading space if there is one. *)
Definition spec_payload (line : string) : string :=
  match PyStr.slice_from 5 line with
  | String " " rest => rest
  | after => after
  end.

(** The data lines as the specification words them. *)
Definition spec_data_lines (event_text : string) : list string :=
  spec_payload <$> marked_lines event_text.

(** A decoded value that is neither an array nor an object. *)
Definition scalar (v : json) : bool :=
  match v with
  | JNull | JBool _ | JInt _ | JFloat _ | JStr _ => true
  | JArr _ | JObj _ => false
  end.

Section Frames.

Variable json_loads : string -> result json.

(** What a frame hands to the sink, and how its processing ends. *)
Definition frame_batches (event_text : string) : list (list ValueChange) :=
  batches (process_event_text json_loads event_text start_world).1.

Definition frame_result (event_text : string) : result unit :=
  (process_event_text json_loads event_text start_world).2.

(** A valid update frame: it has a data line, its data text decodes to an
    update map, and the map gives the value-change records [changes], at
    least one. *)
Definition decodes_to (event_text : string) (changes : list ValueChange)
  : Prop :=
  data_lines event_text <> [] /\
  exists d, json_loads (data_str event_text) = Ok (JObj d) /\
            from_stream_event (JObj d) = Ok changes /\ changes <> [].

(** What the sink has been handed after it was called on each batch of
    [css] in turn, one tick of the reader's clock apart, from [w] on. *)
Definition handed_over (css : list (list ValueChange)) (w : world) : world :=
  mk_world (now w + length css)
           (delivered w ++ zip (seq (now w) (length css)) css)
           (reported w) (response_closed w).

(** The inner loop as [_read_events] runs it. *)
Definition drain_all (buffer : string) : M string :=
  drain json_loads (String.length buffer) buffer.

(** The frames [fs] processed in order, as the inner loop does. *)
Fixpoint process_frames (fs : list string) : M unit :=
  match fs with
  | [] => ret tt
  | f :: fs' =>
      process_event_text json_loads f ;;; tick ;;; process_frames fs'
  end.

End Frames.

End Reading.

(** ** Observing the transport *)

Module Connection.
Import Transport.

(** The error kind of a status of 400 or more, as the specification words
    it: 500 to 599 is a server failure, any other status the generic one. *)
Definition spec_error_class (status : Z) : error_class :=
  if bool_decide (status = 401 \/ status = 403)%Z then AuthenticationError
  else if bool_decide (status = 404)%Z then NotFoundError
  else if bool_decide (500 <= status <= 599)%Z then ServerError
  else I3XError.

(** The error kind the code gives a status of 400 or more. *)
Definition code_error_class (status : Z) : error_class :=
  if bool_decide (status = 401 \/ status = 403)%Z then AuthenticationError
  else if bool_decide (status = 404)%Z then NotFoundError
  else if bool_decide (500 <= status)%Z then ServerError
  else I3XError.

(** What [_ensure_open] raises. *)
Definition not_connected : exn :=
  Raised (mk_error ConnectionError
            "Transport is not connected. Call open() first." None).

(** The request of the liveness probe. *)
Definition probe : request := mk_request "GET" "/namespaces" None None false.

(** A transport that has not been opened, and three servers. *)
Definition closed_state : state :=
  mk_state (init "http://test-server:8080/" None) (mk_wire [] 0 []).

Definition refusing : list request -> request -> result response :=
  fun _ _ => Raise (HttpxConnectError "All connection attempts failed").

Definition answering (status : Z) (text : string)
  : list request -> request -> result response :=
  fun _ _ => Ok (mk_response status (Some "application/json") (Some text)
                   [] None).

End Connection.

(** ** Observing the parsed records *)

Module Snapshots.
Import Models.

(** The second loop of [from_response], over the items still to visit. *)
Fixpoint children_loop (items : list (string * json))
    (children : Dict.t LastKnownValue) : result (Dict.t LastKnownValue) :=
  match items with
  | [] => Ok children
  | (key, child_data) :: rest =>
      if String.eqb key "data" then children_loop rest children
      else match from_response key child_data with
           | Raise e => Raise e
           | Ok child => children_loop rest (Dict.set children key child)
           end
  end.

(** The items of a payload that are not under the reserved key. *)
Definition child_items {A} (d : list (string * A)) : list (string * A) :=
  filter (fun kv => kv.1 <> "data") d.


End Snapshots.

(** ** Observing the registry *)

Module Registry.
Import SSEStream SubscriptionManager.

(** The registry invariant: the readers the manager refers to are live and
    bound to the id they are filed under, and there is no other live
    reader. *)
Definition registry_inv (m : manager) : Prop :=
  (forall sid a, streams m !! sid = Some a ->
     exists r, objects m !! a = Some r /\ subscription_id r = sid /\
               live r = true) /\
  (forall a r, objects m !! a = Some r -> live r = true ->
     streams m !! subscription_id r = Some a).

End Registry.

(** ** Observing the calls on a transport *)

Module Calls.
Import Transport.

(** [n] slashes. *)
Fixpoint slashes (n : nat) : string :=
  match n with
  | O => ""
  | S n' => String "/" (slashes n')
  end.

(** The last character of a text, if it has one. *)
Fixpoint last_char (s : string) : option ascii :=
  match s with
  | EmptyString => None
  | String a EmptyString => Some a
  | String _ s' => last_char s'
  end.

(** What [send] leaves of a state: the request is on the wire, the
    transport is as it was. *)
Definition after_send (s : state) (q : request) : state :=
  mk_state (this s)
           (mk_wire (sent (net s) ++ [q]) (created (net s)) (closed (net s))).



(** The calls a user of a transport makes. *)
Inductive transport_call : Type :=
| DoOpen
| DoClose
| DoGet (path : string) (params : option json)
| DoPost (path : string) (payload : option json)
| DoPut (path : string) (payload : option json)
| DoDelete (path : string)
| DoStreamGet (path : string).

Section WithPython.

Variable json_loads : string -> result json.
Variable py_str : json -> string.
Variable network : list request -> request -> result response.

Definition transport_step (s : state) (k : transport_call) : state :=
  match k with
  | DoOpen => (open json_loads py_str network s).1
  | DoClose => close s
  | DoGet p q => (get json_loads py_str network s p q).1
  | DoPost p b => (post json_loads py_str network s p b).1
  | DoPut p b => (put json_loads py_str network s p b).1
  | DoDelete p => (delete json_loads py_str network s p).1
  | DoStreamGet p => (stream_get json_loads py_str network s p).1
  end.

Definition transport_run (base_url : string) (auth : option (string * string))
    (ks : list transport_call) : state :=
  fold_left transport_step ks
            (mk_state (init base_url auth) (mk_wire [] 0 [])).

End WithPython.

(** The clients of a transport are numbered as they are created; the one it
    holds is the last created and is not closed, and the closed ones are
    closed once. *)
Definition clients_in_order (s : state) : Prop :=
  (forall c, client (this s) = Some c ->
     S (client_id c) = created (net s) /\
     (client_id c ∉ closed (net s)) /\
     S (length (closed (net s))) = created (net s)) /\
  (client (this s) = None -> length (closed (net s)) = created (net s)) /\
  (forall i, i ∈ closed (net s) -> i < created (net s)) /\
  NoDup (closed (net s)).

End Calls.

(** ** Observing what a reader hands over *)

Module Delivery.
Import Models SSE.

(** A computation that only hands batches to the sink. *)
Definition only_delivers {A} (m : M A) : Prop :=
  forall w, exists bs,
    (m w).1 = mk_world (now (m w).1) (delivered w ++ bs) (reported w)
                       (response_closed w).


(** A frame whose processing raises [x] before anything is handed over:
    it has a data line, and either [json.loads] raises [x] on its data
    text, [x] being no [json.JSONDecodeError], or the text decodes to an
    update map from which no records can be made. *)
Definition fails_with (json_loads : string -> result json)
    (event_text : string) (x : exn) : Prop :=
  SSEStream.data_lines event_text <> [] /\
  ((json_loads (Reading.data_str event_text) = Raise x /\
    forall msg, x <> JSONDecodeError msg) \/
   (exists d, json_loads (Reading.data_str event_text) = Ok (JObj d) /\
              from_stream_event (JObj d) = Raise x)).

End Delivery.

(** ** Observing the threads of the readers *)

Module Threads.
Import SSEStream SubscriptionManager.

(** A reader that is not live has no thread; the threads of the readers are
    numbered in the order they were launched, and no two readers share
    one. *)
Definition threads_distinct (m : manager) : Prop :=
  (forall a r, objects m !! a = Some r -> live r = false ->
     thread r = None) /\
  (forall a r t, objects m !! a = Some r -> thread r = Some t ->
     t < threads m) /\
  (forall a b r r' t, objects m !! a = Some r -> objects m !! b = Some r' ->
     thread r = Some t -> thread r' = Some t -> a = b).

End Threads.

(** ** Observing a client *)

Module Dispatch.
Import SubscriptionManager.

(** Whether a call raised. *)
Definition raises {A} (r : result A) : bool :=
  match r with
  | Raise _ => true
  | Ok _ => false
  end.

(** The changes [on_value_change] was called with, in order. *)
Definition changes_called (log : list Client.event)
  : list Models.ValueChange :=
  omap (fun ev => match ev with
                  | Client.CalledOnValueChange change => Some change
                  | _ => None
                  end) log.

(** The exceptions of a callback that were logged. *)
Definition exceptions_logged (log : list Client.event) : list string :=
  omap (fun ev => match ev with
                  | Client.LoggedException msg => Some msg
                  | _ => None
                  end) log.

(** A client is connected exactly when it has a manager, and its manager
    has seen nothing but [add] and [remove] since it was made. *)
Definition client_inv (alive : nat -> bool) (c : Client.client) : Prop :=
  (Client.is_connected c = true <-> is_Some (Client.sub_manager c)) /\
  (forall m, Client.sub_manager c = Some m ->
     exists calls, m = run alive calls).

End Dispatch.

(** * Properties *)

(** ** Strings and the blank-line separator *)

Section StringFacts.

Lemma str_app_cons a s t : String a s +:+ t = String a (s +:+ t).
Proof. reflexivity. Qed.

Lemma str_app_empty_r s : s +:+ "" = s.
Proof. induction s as [|a s IH]; [done|]. by rewrite str_app_cons, IH. Qed.

Lemma str_app_assoc s t u : (s +:+ t) +:+ u = s +:+ (t +:+ u).
Proof. induction s as [|a s IH]; [done|]. by rewrite !str_app_cons, IH. Qed.

Lemma str_app_length s t :
  String.length (s +:+ t) = String.length s + String.length t.
Proof.
  induction s as [|a s IH]; [done|]. rewrite str_app_cons. simpl.
  by rewrite IH.
Qed.

Lemma split_blank_eqn s :
  PyStr.split_once s PyStr.nlnl =
  match s with
  | String a (String b r) =>
      if Ascii.eqb a PyStr.LF && Ascii.eqb b PyStr.LF then Some ("", r)
      else match PyStr.split_once (String b r) PyStr.nlnl with
           | Some (e, r') => Some (String a e, r')
           | None => None
           end
  | _ => None
  end.
Proof.
  destruct s as [|a [|b r]]; [done| |].
  - unfold PyStr.split_once. simpl. by rewrite andb_false_r.
  - unfold PyStr.split_once.
    change (PyStr.find (String a (String b r)) PyStr.nlnl) with
      (if Ascii.eqb a PyStr.LF && (Ascii.eqb b PyStr.LF && true) then Some 0
       else match PyStr.find (String b r) PyStr.nlnl with
            | Some i => Some (S i) | None => None end).
    rewrite andb_true_r.
    destruct (Ascii.eqb a PyStr.LF && Ascii.eqb b PyStr.LF); [done|].
    by destruct (PyStr.find (String b r) PyStr.nlnl).
Qed.

Lemma split_blank_length s e r :
  PyStr.split_once s PyStr.nlnl = Some (e, r) ->
  String.length s = String.length e + 2 + String.length r.
Proof.
  revert e.
  induction s as [|a s IH]; intros e; rewrite split_blank_eqn; [done|].
  destruct s as [|b s]; [done|].
  destruct (_ && _).
  - intros [= <- <-]. done.
  - destruct (PyStr.split_once (String b s) PyStr.nlnl) as [[e' r']|] eqn:E;
      [|done].
    intros [= <- <-]. specialize (IH _ eq_refl). simpl in *. lia.
Qed.

Lemma split_blank_app s t e r :
  PyStr.split_once s PyStr.nlnl = Some (e, r) ->
  PyStr.split_once (s +:+ t) PyStr.nlnl = Some (e, r +:+ t).
Proof.
  revert e.
  induction s as [|a s IH]; intros e; rewrite split_blank_eqn; [done|].
  destruct s as [|b s]; [done|].
  rewrite (split_blank_eqn (_ +:+ _)), !str_app_cons.
  destruct (_ && _).
  - by intros [= <- <-].
  - destruct (PyStr.split_once (String b s) PyStr.nlnl) as [[e' r']|] eqn:E;
      [|done].
    intros [= <- <-]. rewrite <- str_app_cons. by rewrite (IH _ eq_refl).
Qed.

Lemma split_blank_join s e r :
  PyStr.split_once s PyStr.nlnl = Some (e, r) ->
  s = e +:+ PyStr.nlnl +:+ r.
Proof.
  revert e.
  induction s as [|a s IH]; intros e; rewrite split_blank_eqn; [done|].
  destruct s as [|b s]; [done|].
  destruct (Ascii.eqb a PyStr.LF) eqn:Ea, (Ascii.eqb b PyStr.LF) eqn:Eb; simpl.
  1: { intros [= <- <-]. apply Ascii.eqb_eq in Ea, Eb. by subst. }
  all: destruct (PyStr.split_once (String b s) PyStr.nlnl)
         as [[e' r']|] eqn:E; [|done];
    intros [= <- <-]; rewrite str_app_cons; f_equal; by apply IH.
Qed.

End StringFacts.

(** ** The stream reader *)

Import Models SSE SSEStream Reading.

Lemma str_app_nil_l s : "" +:+ s = s.
Proof. reflexivity. Qed.

Section ReaderFacts.

Variable json_loads : string -> result json.

Lemma emit_nil w : emit [] w = w.
Proof. destruct w. unfold emit. simpl. by rewrite app_nil_r. Qed.

Lemma emit_emit bs1 bs2 w : emit bs2 (emit bs1 w) = emit (bs1 ++ bs2) w.
Proof. unfold emit. simpl. by rewrite map_app, app_assoc. Qed.

Lemma stamps_forget {A} (t : nat) (xs : list A) : (map (pair t) xs).*2 = xs.
Proof. induction xs as [|x xs IH]; [done|]. csimpl. by rewrite IH. Qed.

Lemma batches_emit bs w : batches (emit bs w) = batches w ++ bs.
Proof. unfold batches, emit. simpl. by rewrite fmap_app, stamps_forget. Qed.

Lemma deliver_emits changes :
  exists bs, forall w, deliver changes w = (emit bs w, Ok tt).
Proof.
  destruct changes as [|c cs].
  - exists []. intros w. by rewrite emit_nil.
  - by exists [c :: cs].
Qed.

Lemma for_items_emits items :
  exists bs r, forall w, for_items items w = (emit bs w, r).
Proof.
  induction items as [|item rest (bs & r & IH)].
  - exists [], (Ok tt). intros w. by rewrite emit_nil.
  - simpl. unfold bind, lift.
    destruct (from_stream_event item) as [changes|e].
    + destruct (deliver_emits changes) as [bs0 H0].
      exists (bs0 ++ bs), r. intros w. by rewrite H0, IH, emit_emit.
    + exists [], (Raise e). intros w. by rewrite emit_nil.
Qed.

Lemma process_event_text_emits event_text :
  exists bs r, forall w,
    process_event_text json_loads event_text w = (emit bs w, r).
Proof.
  assert (Hret : exists bs r, forall w, ret tt w = (emit bs w, r)).
  { exists [], (Ok tt). intros w. by rewrite emit_nil. }
  unfold process_event_text.
  destruct (data_lines event_text) as [|l ls]; [done|].
  destruct (json_loads _) as [[| | | | |items|d]|exc]; try done.
  - apply for_items_emits.
  - unfold bind, lift. destruct (from_stream_event (JObj d)) as [changes|e].
    + destruct (deliver_emits changes) as [bs0 H0]. by exists bs0, (Ok tt).
    + exists [], (Raise e). intros w. by rewrite emit_nil.
  - assert (Hraise : exists bs r, forall w,
              lift (Raise exc) w = (emit bs w, r : result unit)).
    { exists [], (Raise exc). intros w. by rewrite emit_nil. }
    by destruct exc.
Qed.

Lemma process_event_text_spec event_text w :
  process_event_text json_loads event_text w
  = (emit (frame_batches json_loads event_text) w,
     frame_result json_loads event_text).
Proof.
  destruct (process_event_text_emits event_text) as (bs & r & H).
  unfold frame_batches, frame_result. rewrite !H. simpl.
  by rewrite batches_emit.
Qed.

(** Fuel: any amount from the length of the buffer on gives the same run. *)
Lemma drain_fuel f1 f2 buffer w :
  String.length buffer <= f1 -> String.length buffer <= f2 ->
  drain json_loads f1 buffer w = drain json_loads f2 buffer w.
Proof.
  revert f2 buffer w. induction f1 as [|f1 IH]; intros f2 buffer w H1 H2.
  - destruct buffer; [|simpl in H1; lia]. by destruct f2.
  - destruct f2 as [|f2].
    { destruct buffer; [done|simpl in H2; lia]. }
    simpl.
    destruct (PyStr.split_once buffer PyStr.nlnl) as [[e r]|] eqn:E; [|done].
    apply split_blank_length in E.
    unfold bind. destruct (process_event_text _ e w) as [w1 [[]|x]]; [|done].
    simpl. apply IH; lia.
Qed.

Lemma drain_all_eqn buffer w :
  drain_all json_loads buffer w =
  match PyStr.split_once buffer PyStr.nlnl with
  | None => (w, Ok buffer)
  | Some (event_text, rest) =>
      match process_event_text json_loads event_text w with
      | (w1, Ok _) => drain_all json_loads rest (tock w1)
      | (w1, Raise e) => (w1, Raise e)
      end
  end.
Proof.
  unfold drain_all.
  destruct (PyStr.split_once buffer PyStr.nlnl) as [[e r]|] eqn:E.
  - pose proof (split_blank_length _ _ _ E) as Hlen.
    destruct (String.length buffer) as [|n] eqn:En; [lia|].
    simpl. rewrite E. unfold bind.
    destruct (process_event_text _ e w) as [w1 [[]|x]]; [|done].
    simpl. apply drain_fuel; lia.
  - destruct (String.length buffer); simpl; by rewrite E.
Qed.

Lemma string_length_ind (P : string -> Prop) :
  (forall s, (forall t, String.length t < String.length s -> P t) -> P s) ->
  forall s, P s.
Proof.
  intros H s. remember (String.length s) as n eqn:En.
  revert s En. induction n as [n IH] using lt_wf_ind. intros s ->.
  apply H. intros t Ht. by apply (IH _ Ht).
Qed.

(** On exit the loop condition is false: no blank line is left. *)
Lemma drain_all_exit buffer w w' b :
  drain_all json_loads buffer w = (w', Ok b) ->
  PyStr.split_once b PyStr.nlnl = None.
Proof.
  revert w. induction buffer as [buffer IH] using string_length_ind. intros w.
  rewrite drain_all_eqn.
  destruct (PyStr.split_once buffer PyStr.nlnl) as [[e r]|] eqn:E.
  - apply split_blank_length in E.
    destruct (process_event_text _ e w) as [w1 [[]|x]]; [|done].
    apply IH. lia.
  - by intros [= <- <-].
Qed.

(** Text that arrives later does not change how the frames before it are
    cut: draining [x +:+ y] is draining [x], then what is left of it
    followed by [y]. *)
Lemma drain_all_app x y w :
  drain_all json_loads (x +:+ y) w =
  match drain_all json_loads x w with
  | (w1, Ok b) => drain_all json_loads (b +:+ y) w1
  | (w1, Raise e) => (w1, Raise e)
  end.
Proof.
  revert w. induction x as [x IH] using string_length_ind. intros w.
  rewrite (drain_all_eqn x).
  destruct (PyStr.split_once x PyStr.nlnl) as [[e r]|] eqn:E; [|done].
  rewrite (drain_all_eqn (x +:+ y)), (split_blank_app _ y _ _ E).
  apply split_blank_length in E.
  destruct (process_event_text _ e w) as [w1 [[]|x']]; [|done].
  apply IH. lia.
Qed.

Lemma sim_refl w : sim w w.
Proof. done. Qed.

Lemma sim_sym w1 w2 : sim w1 w2 -> sim w2 w1.
Proof. intros (? & ? & ?). by repeat split. Qed.

Lemma sim_trans w1 w2 w3 : sim w1 w2 -> sim w2 w3 -> sim w1 w3.
Proof. intros (? & ? & ?) (? & ? & ?). repeat split; congruence. Qed.

Lemma sim_emit bs w1 w2 : sim w1 w2 -> sim (emit bs w1) (emit bs w2).
Proof.
  intros (Hb & Hf & Hc). repeat split; [|done..].
  by rewrite !batches_emit, Hb.
Qed.

Lemma sim_tock_l w1 w2 : sim w1 w2 -> sim (tock w1) w2.
Proof. done. Qed.

Lemma sim_tock_r w1 w2 : sim w1 w2 -> sim w1 (tock w2).
Proof. done. Qed.

Lemma sim_out_trans {A} (p1 p2 p3 : world * result A) :
  sim_out p1 p2 -> sim_out p2 p3 -> sim_out p1 p3.
Proof.
  intros [H1 E1] [H2 E2]. split; [by eapply sim_trans|congruence].
Qed.

(** The frames of a buffer are processed alike whatever the clock shows. *)
Lemma drain_all_sim buffer w1 w2 :
  sim w1 w2 ->
  sim_out (drain_all json_loads buffer w1) (drain_all json_loads buffer w2).
Proof.
  revert w1 w2. induction buffer as [buffer IH] using string_length_ind.
  intros w1 w2 Hs. rewrite !drain_all_eqn.
  destruct (PyStr.split_once buffer PyStr.nlnl) as [[e r]|] eqn:E; [|done].
  apply split_blank_length in E. rewrite !process_event_text_spec.
  destruct (frame_result json_loads e) as [[]|x].
  - apply IH; [lia|]. by apply sim_tock_l, sim_tock_r, sim_emit.
  - split; [by apply sim_emit|done].
Qed.

Lemma read_chunks_eqn stop chunk rest failure buffer w :
  read_chunks json_loads stop (chunk :: rest) failure buffer w =
  if stop (now w) then (w, Ok tt)
  else match drain_all json_loads (buffer +:+ chunk) (tock w) with
       | (w1, Ok b) => read_chunks json_loads stop rest failure b w1
       | (w1, Raise e) => (w1, Raise e)
       end.
Proof. done. Qed.

Lemma read_chunks_sim chunks failure buffer w1 w2 :
  sim w1 w2 ->
  sim_out (read_chunks json_loads never chunks failure buffer w1)
          (read_chunks json_loads never chunks failure buffer w2).
Proof.
  revert buffer w1 w2. induction chunks as [|c cs IH]; intros buffer w1 w2 Hs.
  - by destruct failure.
  - rewrite !read_chunks_eqn. simpl.
    destruct (drain_all_sim (buffer +:+ c) (tock w1) (tock w2)) as [Hs' Hr].
    { by apply sim_tock_l, sim_tock_r. }
    destruct (drain_all json_loads _ (tock w1)) as [wa ra],
      (drain_all json_loads _ (tock w2)) as [wb rb].
    simpl in *. subst rb. destruct ra as [b|x]; [by apply IH|done].
Qed.

(** Feeding the chunks one at a time is feeding their whole text at once. *)
Lemma read_chunks_whole chunks failure buffer w :
  PyStr.split_once buffer PyStr.nlnl = None ->
  sim_out (read_chunks json_loads never chunks failure buffer w)
          (read_chunks json_loads never [whole chunks] failure buffer w).
Proof.
  revert buffer w. induction chunks as [|c cs IH]; intros buffer w Hb.
  - rewrite read_chunks_eqn. simpl. rewrite str_app_empty_r, drain_all_eqn, Hb.
    by destruct failure.
  - rewrite !read_chunks_eqn. simpl.
    change (whole (c :: cs)) with (c +:+ whole cs).
    rewrite <- str_app_assoc, (drain_all_app (buffer +:+ c) (whole cs)).
    destruct (drain_all json_loads (buffer +:+ c) (tock w)) as [w1 [b|x]] eqn:E;
      [|by split].
    eapply sim_out_trans; [apply IH; by eapply drain_all_exit|].
    rewrite read_chunks_eqn. simpl.
    destruct (drain_all_sim (b +:+ whole cs) (tock w1) w1) as [Hs' Hr]; [done|].
    destruct (drain_all json_loads _ (tock w1)) as [wa ra],
      (drain_all json_loads _ w1) as [wb rb].
    simpl in *. subst rb. destruct ra as [b'|x]; [|done].
    simpl. by destruct failure.
Qed.

Lemma is_frame_split f rest :
  is_frame f ->
  PyStr.split_once (f +:+ PyStr.nlnl +:+ rest) PyStr.nlnl = Some (f, rest).
Proof.
  intros H. rewrite <- str_app_assoc. by rewrite (split_blank_app _ rest _ _ H).
Qed.

Lemma on_wire_app fs1 fs2 : on_wire (fs1 ++ fs2) = on_wire fs1 +:+ on_wire fs2.
Proof.
  induction fs1 as [|f fs IH]; [done|]. simpl. by rewrite IH, !str_app_assoc.
Qed.

Lemma drain_all_on_wire fs rest w :
  Forall is_frame fs ->
  drain_all json_loads (on_wire fs +:+ rest) w =
  match process_frames json_loads fs w with
  | (w1, Ok _) => drain_all json_loads rest w1
  | (w1, Raise e) => (w1, Raise e)
  end.
Proof.
  intros Hfs. revert w. induction Hfs as [|f fs Hf _ IH]; intros w; [done|].
  simpl. rewrite !str_app_assoc, drain_all_eqn, (is_frame_split _ _ Hf).
  unfold bind. destruct (process_event_text _ f w) as [w1 [[]|x]]; [|done].
  simpl. apply IH.
Qed.

(** A frame that does nothing at all can be taken off the wire. *)
Lemma silent_frame_drain f pre post w1 w2 :
  (forall w, process_event_text json_loads f w = (w, Ok tt)) ->
  Forall is_frame pre -> is_frame f -> sim w1 w2 ->
  sim_out (drain_all json_loads (on_wire pre +:+ f +:+ PyStr.nlnl +:+ post) w1)
          (drain_all json_loads (on_wire pre +:+ post) w2).
Proof.
  intros Hsilent Hpre Hf. revert w1 w2.
  induction Hpre as [|p pre Hp _ IH]; intros w1 w2 Hs.
  - change (on_wire []) with "". rewrite !str_app_nil_l.
    rewrite (drain_all_eqn (f +:+ _)), (is_frame_split _ _ Hf), Hsilent.
    apply drain_all_sim. by apply sim_tock_l.
  - simpl. rewrite !str_app_assoc.
    rewrite (drain_all_eqn (p +:+ _)), (is_frame_split _ _ Hp).
    rewrite (drain_all_eqn (p +:+ PyStr.nlnl +:+ _)), (is_frame_split _ _ Hp).
    rewrite !process_event_text_spec.
    destruct (frame_result json_loads p) as [[]|x].
    + apply IH. by apply sim_tock_l, sim_tock_r, sim_emit.
    + split; [by apply sim_emit|done].
Qed.

Lemma read_events_sim r r' w :
  whole (Transport.chunks r) = whole (Transport.chunks r') ->
  Transport.stream_failure r = Transport.stream_failure r' ->
  sim_out (read_events json_loads never r w)
          (read_events json_loads never r' w).
Proof.
  intros Hw Hf. unfold read_events.
  eapply sim_out_trans; [by apply read_chunks_whole|].
  rewrite Hw, Hf.
  destruct (read_chunks_whole (Transport.chunks r')
              (Transport.stream_failure r') "" w) as [[H1 [H2 H3]] H4]; [done|].
  split; [|done]. by repeat split.
Qed.

Lemma run_on_sim r r' w :
  sim_out (read_events json_loads never r w)
          (read_events json_loads never r' w) ->
  sim_out (run_on json_loads never (Ok r) w)
          (run_on json_loads never (Ok r') w).
Proof.
  unfold run_on. simpl.
  destruct (read_events _ _ r w) as [w1 r1], (read_events _ _ r' w) as [w2 r2].
  intros [(Hb & Hf & Hc) Hr]. simpl in *. subst r2.
  destruct r1 as [[]|x]; split; try done; repeat split; try done.
  unfold failures in *. simpl. by rewrite !fmap_app, Hf.
Qed.

Lemma read_silent_frame f pre post chunks chunks' failure w :
  (forall w, process_event_text json_loads f w = (w, Ok tt)) ->
  Forall is_frame pre -> is_frame f ->
  whole chunks = on_wire pre +:+ f +:+ PyStr.nlnl +:+ post ->
  whole chunks' = on_wire pre +:+ post ->
  sim_out (run_on json_loads never (Ok (response_of chunks failure)) w)
          (run_on json_loads never (Ok (response_of chunks' failure)) w).
Proof.
  intros Hsilent Hpre Hf Hc Hc'. apply run_on_sim.
  eapply sim_out_trans; [by apply read_chunks_whole|].
  eapply sim_out_trans;
    [|apply (read_events_sim (response_of [whole chunks'] failure)
                             (response_of chunks' failure)); simpl;
      [by rewrite str_app_empty_r|done]].
  unfold read_events. simpl Transport.chunks. simpl Transport.stream_failure.
  rewrite Hc, Hc', !read_chunks_eqn. simpl.
  destruct (silent_frame_drain f pre post (tock w) (tock w) Hsilent Hpre Hf)
    as [Hs Hr]; [done|].
  destruct (drain_all json_loads _ (tock w)) as [wa ra],
    (drain_all json_loads _ (tock w)) as [wb rb].
  simpl in *. subst rb. destruct ra as [b|x]; [|done].
  simpl. by destruct failure.
Qed.

Lemma process_frames_ok fs w :
  Forall (fun f => frame_result json_loads f = Ok tt) fs ->
  exists w', process_frames json_loads fs w = (w', Ok tt) /\
             batches w'
             = batches w ++ concat (map (frame_batches json_loads) fs) /\
             failures w' = failures w.
Proof.
  intros Hfs. revert w. induction Hfs as [|f fs Hf _ IH]; intros w.
  - exists w. simpl. by rewrite app_nil_r.
  - simpl. unfold bind. rewrite process_event_text_spec, Hf. simpl.
    match goal with
    | |- context [process_frames json_loads fs ?x] =>
        destruct (IH x) as (w' & -> & Hb & Hfl)
    end.
    exists w'. split; [done|]. split; [|done].
    rewrite Hb. simpl concat. rewrite app_assoc.
    by rewrite <- (batches_emit (frame_batches json_loads f) w).
Qed.

(** If no frame raises, every frame on the wire is delivered, in order. *)
Lemma read_frames_delivered fs tail chunks failure w :
  Forall is_frame fs ->
  Forall (fun f => frame_result json_loads f = Ok tt) fs ->
  PyStr.split_once tail PyStr.nlnl = None ->
  whole chunks = on_wire fs +:+ tail ->
  batches (read_events json_loads never (response_of chunks failure) w).1
  = batches w ++ concat (map (frame_batches json_loads) fs).
Proof.
  intros Hfs Hok Htail Hw.
  destruct (read_events_sim (response_of chunks failure)
              (response_of [on_wire fs +:+ tail] failure) w) as [[-> _] _];
    [simpl; by rewrite str_app_empty_r|done|].
  unfold read_events. simpl Transport.chunks. simpl Transport.stream_failure.
  rewrite read_chunks_eqn. simpl. rewrite str_app_nil_l.
  rewrite drain_all_on_wire by done.
  destruct (process_frames_ok fs (tock w) Hok) as (w' & -> & Hb & _).
  rewrite drain_all_eqn, Htail. simpl. by destruct failure.
Qed.

Lemma split_blank_frame s e r :
  PyStr.split_once s PyStr.nlnl = Some (e, r) -> is_frame e.
Proof.
  unfold is_frame. revert e.
  induction s as [|a s IH]; intros e; rewrite split_blank_eqn; [done|].
  destruct s as [|b s]; [done|].
  destruct (Ascii.eqb a PyStr.LF && Ascii.eqb b PyStr.LF) eqn:Eab.
  - by intros [= <- <-].
  - destruct (PyStr.split_once (String b s) PyStr.nlnl) as [[e' r']|] eqn:E;
      [|done].
    intros [= <- <-]. specialize (IH _ eq_refl).
    apply split_blank_join in E.
    assert (Hb : exists x, e' +:+ PyStr.nlnl = String b x).
    { destruct e' as [|c e''].
      - change (String b s = String PyStr.LF (String PyStr.LF r')) in E.
        injection E as -> _. eexists. reflexivity.
      - rewrite str_app_cons in E. injection E as -> _.
        eexists. reflexivity. }
    destruct Hb as [x Hx]. rewrite str_app_cons, Hx, split_blank_eqn, Eab.
    by rewrite <- Hx, IH.
Qed.

(** Every text is a sequence of complete frames followed by a rest without
    a blank line. *)
Lemma wire_frames text :
  exists fs tail,
    Forall is_frame fs /\ PyStr.split_once tail PyStr.nlnl = None /\
    text = on_wire fs +:+ tail.
Proof.
  induction text as [text IH] using string_length_ind.
  destruct (PyStr.split_once text PyStr.nlnl) as [[e r]|] eqn:E.
  - pose proof (split_blank_length _ _ _ E) as Hlen.
    destruct (IH r) as (fs & tail & Hfs & Htail & ->); [lia|].
    exists (e :: fs), tail. split; [|split; [done|]].
    + constructor; [by eapply split_blank_frame|done].
    + simpl. rewrite str_app_assoc. by apply split_blank_join.
  - by exists [], text.
Qed.

(** A valid update frame hands its records to the sink, once. *)
Lemma decodes_to_processed f cs w :
  decodes_to json_loads f cs ->
  process_event_text json_loads f w = (emit [cs] w, Ok tt).
Proof.
  intros (Hl & d & Hd & Hcs & Hne). unfold process_event_text.
  destruct (data_lines f) as [|l ls] eqn:E; [done|].
  unfold data_str in Hd. rewrite E in Hd. rewrite Hd.
  unfold bind, lift. rewrite Hcs. by destruct cs.
Qed.

Lemma handed_over_nil w : handed_over [] w = w.
Proof.
  unfold handed_over. destruct w. simpl. by rewrite Nat.add_0_r, app_nil_r.
Qed.

Lemma handed_over_cons cs css w :
  handed_over (cs :: css) w = handed_over css (tock (emit [cs] w)).
Proof.
  unfold handed_over, tock, emit. simpl. f_equal; [lia|].
  by rewrite <- app_assoc.
Qed.

Lemma handed_over_app css1 css2 w :
  handed_over (css1 ++ css2) w = handed_over css2 (handed_over css1 w).
Proof.
  revert w. induction css1 as [|cs css1 IH]; intros w.
  - by rewrite handed_over_nil.
  - simpl. by rewrite !handed_over_cons, IH.
Qed.

Lemma batches_handed_over css w :
  batches (handed_over css w) = batches w ++ css.
Proof.
  unfold batches, handed_over. simpl. rewrite fmap_app. f_equal.
  apply snd_zip. by rewrite length_seq.
Qed.

Lemma batches_tock w : batches (tock w) = batches w.
Proof. done. Qed.

Lemma failures_tock w : failures (tock w) = failures w.
Proof. done. Qed.

Lemma failures_handed_over css w : failures (handed_over css w) = failures w.
Proof. done. Qed.

Lemma process_frames_decoded fs css w :
  Forall2 (decodes_to json_loads) fs css ->
  process_frames json_loads fs w = (handed_over css w, Ok tt).
Proof.
  intros H. revert w. induction H as [|f cs fs css Hf _ IH]; intros w.
  - by rewrite handed_over_nil.
  - simpl. unfold bind. rewrite (decodes_to_processed f cs w Hf). simpl.
    rewrite handed_over_cons. apply IH.
Qed.

Lemma process_frames_app fs1 fs2 w :
  process_frames json_loads (fs1 ++ fs2) w
  = match process_frames json_loads fs1 w with
    | (w1, Ok _) => process_frames json_loads fs2 w1
    | (w1, Raise e) => (w1, Raise e)
    end.
Proof.
  revert w. induction fs1 as [|f fs1 IH]; intros w; [done|].
  simpl. unfold bind.
  destruct (process_event_text json_loads f w) as [w1 [[]|x]]; [|done].
  simpl. apply IH.
Qed.

(** The reading of a wire of complete frames and an unterminated rest: the
    frames are processed in order, one tick after the chunk was taken. *)
Lemma read_chunk_frames stop fs tail chunk failure buffer w :
  stop (now w) = false ->
  Forall is_frame fs -> PyStr.split_once tail PyStr.nlnl = None ->
  buffer +:+ chunk = on_wire fs +:+ tail ->
  drain json_loads (String.length (buffer +:+ chunk)) (buffer +:+ chunk)
        (tock w)
  = match process_frames json_loads fs (tock w) with
    | (w1, Ok _) => (w1, Ok tail)
    | (w1, Raise e) => (w1, Raise e)
    end /\
  read_chunks json_loads stop [chunk] failure buffer w
  = match process_frames json_loads fs (tock w) with
    | (w1, Ok _) => (w1, match failure with
                         | Some e => Raise e
                         | None => Ok tt
                         end)
    | (w1, Raise e) => (w1, Raise e)
    end.
Proof.
  intros Hstop Hfs Htail Hb.
  assert (Hd : drain_all json_loads (buffer +:+ chunk) (tock w)
               = match process_frames json_loads fs (tock w) with
                 | (w1, Ok _) => (w1, Ok tail)
                 | (w1, Raise e) => (w1, Raise e)
                 end).
  { rewrite Hb, drain_all_on_wire by done.
    destruct (process_frames json_loads fs (tock w)) as [w1 [[]|x]]; [|done].
    by rewrite drain_all_eqn, Htail. }
  split; [exact Hd|].
  rewrite read_chunks_eqn, Hstop, Hd.
  destruct (process_frames json_loads fs (tock w)) as [w1 [[]|x]]; [|done].
  simpl. by destruct failure.
Qed.


(** The run of [_run] on a wire of complete frames that raise nothing and
    an unterminated rest, the stream ending normally. *)
Lemma run_frames fs tail chunks w w1 :
  Forall is_frame fs -> PyStr.split_once tail PyStr.nlnl = None ->
  whole chunks = on_wire fs +:+ tail ->
  process_frames json_loads fs (tock w) = (w1, Ok tt) ->
  let out := run_on json_loads never (Ok (response_of chunks None)) w in
  batches out.1 = batches w1 /\ failures out.1 = failures w1 /\
  out.2 = Ok tt.
Proof.
  intros Hfs Htail Hc Hrun out.
  assert (Hsim : sim_out
            (read_events json_loads never (response_of chunks None) w)
            (read_events json_loads never
               (response_of [on_wire fs +:+ tail] None) w)).
  { apply read_events_sim; [|done]. simpl. by rewrite str_app_empty_r. }
  apply run_on_sim in Hsim. destruct Hsim as [(H1 & H2 & _) H3].
  fold out in H1, H2, H3. rewrite H1, H2, H3. clear H1 H2 H3 out.
  unfold run_on, read_events. simpl Transport.chunks.
  simpl Transport.stream_failure.
  destruct (read_chunk_frames never fs tail (on_wire fs +:+ tail) None "" w)
    as [_ ->]; [done..|by rewrite str_app_nil_l|].
  by rewrite Hrun.
Qed.

End ReaderFacts.

(** C1. Whatever the chunks a text arrives in, the reader hands the sink the
    same decoded update batches in the same order, and ends the same way, as
    when the whole text arrives as one chunk; the stop flag is never set. *)
Theorem chunk_boundary_independence (json_loads : string -> result json)
    (r : Transport.response) (w : world) :
  let at_once :=
    Transport.mk_response (Transport.status_code r) (Transport.content_type r)
      (Transport.body r) [whole (Transport.chunks r)]
      (Transport.stream_failure r) in
  let in_chunks_run := read_events json_loads never r w in
  let at_once_run := read_events json_loads never at_once w in
  batches in_chunks_run.1 = batches at_once_run.1 /\
  failures in_chunks_run.1 = failures at_once_run.1 /\
  in_chunks_run.2 = at_once_run.2.
Proof.
  destruct (read_chunks_whole json_loads (Transport.chunks r)
              (Transport.stream_failure r) "" w) as [(H1 & H2 & _) H3]; [done|].
  done.
Qed.


Lemma process_event_text_undecodable json_loads event_text msg w :
  json_loads (data_str event_text) = Raise (JSONDecodeError msg) ->
  process_event_text json_loads event_text w = (w, Ok tt).
Proof.
  intros H. unfold process_event_text.
  destruct (data_lines event_text) as [|l ls] eqn:E; [done|].
  unfold data_str in H. rewrite E in H. by rewrite H.
Qed.

(** C2 (as the code has it). A frame whose data text [json.loads] rejects
    with [json.JSONDecodeError] calls neither sink and raises nothing, and
    the reader goes on as if the frame had not been on the wire: the valid
    update frames before and after it are decoded and their records handed
    to the sink, in order, and the stream ends without an error. *)
Theorem invalid_json_frame_skipped (json_loads : string -> result json)
    (bad msg : string) :
  json_loads (data_str bad) = Raise (JSONDecodeError msg) ->
  (forall w, process_event_text json_loads bad w = (w, Ok tt)) /\
  (forall pre post chunks chunks' failure w,
     Forall is_frame pre -> is_frame bad ->
     whole chunks = on_wire pre +:+ bad +:+ PyStr.nlnl +:+ post ->
     whole chunks' = on_wire pre +:+ post ->
     let with_bad :=
       run_on json_loads never (Ok (response_of chunks failure)) w in
     let without :=
       run_on json_loads never (Ok (response_of chunks' failure)) w in
     batches with_bad.1 = batches without.1 /\
     failures with_bad.1 = failures without.1 /\
     with_bad.2 = without.2) /\
  (forall pre post css_pre css_post tail chunks w,
     Forall is_frame (pre ++ bad :: post) ->
     Forall2 (decodes_to json_loads) pre css_pre ->
     Forall2 (decodes_to json_loads) post css_post ->
     PyStr.split_once tail PyStr.nlnl = None ->
     whole chunks = on_wire (pre ++ bad :: post) +:+ tail ->
     let out := run_on json_loads never (Ok (response_of chunks None)) w in
     batches out.1 = batches w ++ css_pre ++ css_post /\
     failures out.1 = failures w /\
     out.2 = Ok tt) /\
  (forall pre post tail chunks failure w,
     Forall is_frame (pre ++ bad :: post) ->
     Forall (fun f => frame_result json_loads f = Ok tt) (pre ++ post) ->
     PyStr.split_once tail PyStr.nlnl = None ->
     whole chunks = on_wire (pre ++ bad :: post) +:+ tail ->
     batches (read_events json_loads never (response_of chunks failure) w).1
     = batches w ++ concat (map (frame_batches json_loads) (pre ++ post))).
Proof.
  intros Hbad.
  assert (Hsilent : forall w, process_event_text json_loads bad w = (w, Ok tt)).
  { intros w. by eapply process_event_text_undecodable. }
  split; [done|]. split; [|split].
  - intros pre post chunks chunks' failure w Hpre Hf Hc Hc'.
    destruct (read_silent_frame json_loads bad pre post chunks chunks'
                failure w) as [(H1 & H2 & _) H3]; done.
  - intros pre post css_pre css_post tail chunks w Hfs Hpre Hpost Htail Hc.
    cbv zeta.
    destruct (run_frames json_loads (pre ++ bad :: post) tail chunks w
                (handed_over css_post
                   (tock (handed_over css_pre (tock w)))))
      as (H1 & H2 & H3); try done.
    + rewrite process_frames_app, (process_frames_decoded _ _ _ _ Hpre).
      simpl. unfold bind. rewrite Hsilent. simpl.
      apply (process_frames_decoded _ _ _ _ Hpost).
    + cbv zeta in H1, H2, H3. rewrite H1, H2, H3.
      rewrite batches_handed_over, batches_tock, batches_handed_over.
      rewrite batches_tock, failures_handed_over, failures_tock.
      rewrite failures_handed_over, failures_tock.
      by rewrite <- app_assoc.
  - intros pre post tail chunks failure w Hfs Hok Htail Hc.
    rewrite (read_frames_delivered json_loads (pre ++ bad :: post) tail);
      try done.
    + f_equal. rewrite !map_app, !concat_app. simpl.
      unfold frame_batches at 2. by rewrite Hsilent.
    + apply Forall_app in Hok as [H1 H2]. apply Forall_app. split; [done|].
      constructor; [|done]. unfold frame_result. by rewrite Hsilent.
Qed.

Lemma from_stream_event_nil v :
  from_stream_event v = Ok [] <-> v = JObj [].
Proof.
  split; [|by intros ->].
  destruct v as [| | | | | |d]; try done.
  destruct d as [|[k x] d]; [done|]. simpl.
  destruct (change_of_item k x); [|done].
  by destruct (rmap _ d).
Qed.

(** C10. A frame whose data text decodes to a string, a number, a boolean or
    null, or to an update map that yields no value-change record (the empty
    object), calls neither sink, raises nothing, and the reader goes on as
    if the frame had not been on the wire; in an array of update maps an
    empty one is passed over. *)
Theorem non_update_frame_dropped (json_loads : string -> result json)
    (event_text : string) (v : json) :
  json_loads (data_str event_text) = Ok v ->
  scalar v = true \/ from_stream_event v = Ok [] ->
  (forall w, process_event_text json_loads event_text w = (w, Ok tt)) /\
  (forall pre post chunks chunks' failure w,
     Forall is_frame pre -> is_frame event_text ->
     whole chunks = on_wire pre +:+ event_text +:+ PyStr.nlnl +:+ post ->
     whole chunks' = on_wire pre +:+ post ->
     let with_it :=
       run_on json_loads never (Ok (response_of chunks failure)) w in
     let without :=
       run_on json_loads never (Ok (response_of chunks' failure)) w in
     batches with_it.1 = batches without.1 /\
     failures with_it.1 = failures without.1 /\
     with_it.2 = without.2) /\
  (forall item rest w,
     from_stream_event item = Ok [] ->
     for_items (item :: rest) w = for_items rest w).
Proof.
  intros Hv Hkind.
  assert (Hsilent : forall w,
            process_event_text json_loads event_text w = (w, Ok tt)).
  { intros w. unfold process_event_text.
    destruct (data_lines event_text) as [|l ls] eqn:E; [done|].
    unfold data_str in Hv. rewrite E in Hv. rewrite Hv.
    destruct Hkind as [Hs|He].
    - by destruct v.
    - apply from_stream_event_nil in He. by subst v. }
  split; [done|]. split.
  - intros pre post chunks chunks' failure w Hpre Hf Hc Hc'.
    destruct (read_silent_frame json_loads event_text pre post chunks chunks'
                failure w) as [(H1 & H2 & _) H3]; done.
  - intros item rest w Hitem. simpl. unfold bind, lift. by rewrite Hitem.
Qed.

(** C5 (as the code has it). The stop flag is read once per chunk, at the top
    of the read iteration.  If it is set then, the reader returns at once:
    the chunk is dropped, nothing is processed, no sink is called.  If it is
    not set then, every complete frame of the buffer is processed, in
    order, whatever the flag becomes meanwhile: the records of valid update
    frames are handed to the sink one tick after the other, and what is
    left in the buffer when the flag is read next is the text after the
    last blank line, without a complete frame. *)
Theorem stop_flag_read_once_per_chunk (json_loads : string -> result json)
    (stop : nat -> bool) (chunk : string) (rest : list string)
    (failure : option exn) (buffer : string) (w : world) :
  (stop (now w) = true ->
   read_chunks json_loads stop (chunk :: rest) failure buffer w = (w, Ok tt)) /\
  (forall stop' : nat -> bool,
     stop (now w) = false -> stop' (now w) = false ->
     read_chunks json_loads stop [chunk] failure buffer w
     = read_chunks json_loads stop' [chunk] failure buffer w) /\
  (exists fs tail,
     Forall is_frame fs /\ PyStr.split_once tail PyStr.nlnl = None /\
     buffer +:+ chunk = on_wire fs +:+ tail) /\
  (forall fs tail,
     stop (now w) = false ->
     Forall is_frame fs -> PyStr.split_once tail PyStr.nlnl = None ->
     buffer +:+ chunk = on_wire fs +:+ tail ->
     drain json_loads (String.length (buffer +:+ chunk)) (buffer +:+ chunk)
           (tock w)
     = match process_frames json_loads fs (tock w) with
       | (w1, Ok _) => (w1, Ok tail)
       | (w1, Raise e) => (w1, Raise e)
       end /\
     read_chunks json_loads stop [chunk] failure buffer w
     = match process_frames json_loads fs (tock w) with
       | (w1, Ok _) => (w1, match failure with
                            | Some e => Raise e
                            | None => Ok tt
                            end)
       | (w1, Raise e) => (w1, Raise e)
       end /\
     (forall css,
        Forall2 (decodes_to json_loads) fs css ->
        let w1 := (read_chunks json_loads stop [chunk] failure buffer w).1 in
        now w1 = S (now w) + length fs /\
        delivered w1
        = delivered w ++ zip (seq (S (now w)) (length fs)) css /\
        reported w1 = reported w)) /\
  (forall w1 b,
     drain json_loads (String.length (buffer +:+ chunk)) (buffer +:+ chunk)
           (tock w) = (w1, Ok b) ->
     PyStr.split_once b PyStr.nlnl = None).
Proof.
  split; [|split; [|split; [|split]]].
  - intros H. by rewrite read_chunks_eqn, H.
  - intros stop' H H'. by rewrite !read_chunks_eqn, H, H'.
  - apply wire_frames.
  - intros fs tail Hstop Hfs Htail Hb.
    destruct (read_chunk_frames json_loads stop fs tail chunk failure buffer w)
      as [Hd Hr]; try done.
    split; [done|]. split; [done|].
    intros css Hcss w1. subst w1. rewrite Hr.
    rewrite (process_frames_decoded json_loads fs css (tock w) Hcss).
    rewrite (Forall2_length _ _ _ Hcss). by destruct failure.
  - intros w1 b H. by eapply drain_all_exit.
Qed.

(** On a concrete frame, [decodes_to] by computation. *)
Ltac frame_decodes :=
  split;
  [ let H := fresh in intros H; vm_compute in H; discriminate H
  | eexists; split; [reflexivity|split; [reflexivity|discriminate]] ].

Ltac frames_decode :=
  repeat (apply List.Forall2_cons; [frame_decodes|]); apply List.Forall2_nil.

(** C5 fails: the flag is set after the first of two frames that arrived in
    one chunk has been processed, and the second is delivered all the same. *)
Lemma stop_between_frames_unnoticed :
  let stop := fun t => 2 <=? t in
  let r := response_of
             [JsonRef.txt "data: {'a': {}}||data: {'b': {}}||"] None in
  let w := (read_events JsonRef.loads stop r start_world).1 in
  stop 1 = false /\ stop 2 = true /\
  delivered w = [(1, [mk_ValueChange "a" [] []]);
                 (2, [mk_ValueChange "b" [] []])] /\
  ~ no_delivery_once_stopped stop w.
Proof.
  repeat split; try by vm_compute.
  intros H. specialize (H 2 [mk_ValueChange "b" [] []]).
  assert (Hin : (2, [mk_ValueChange "b" [] []])
                ∈ [(1, [mk_ValueChange "a" [] []]);
                   (2, [mk_ValueChange "b" [] []])]) by set_solver.
  apply H in Hin. done.
Qed.

(** The frame of the specification's scenario decodes to one value-change
    record for [obj-1] with one triple. *)
Example frame_scenario :
  delivered
    (read_events JsonRef.loads never
       (response_of
          [JsonRef.txt
             "data: {'obj-1': {'data': [{'value': 72.5, 'quality': 'Good', 'timestamp': 't1'}]}}||"]
          None)
       start_world).1
  = [(1, [mk_ValueChange "obj-1"
            [mk_VQT (JFloat "72.5") (JStr "Good") (JStr "t1")] []])].
Proof. reflexivity. Qed.

Lemma invalid_json_frame_skipped_witness :
  process_event_text JsonRef.loads "data: {oops" start_world
    = (start_world, Ok tt) /\
  batches (run_on JsonRef.loads never
             (Ok (response_of
                    [JsonRef.txt "data: {'a': {}}||data: {oo";
                     JsonRef.txt "ps||data: {'b': {}}||"] None))
             start_world).1
  = batches (run_on JsonRef.loads never
               (Ok (response_of
                      [JsonRef.txt "data: {'a': {}}||data: {'b': {}}||"] None))
               start_world).1 /\
  batches (run_on JsonRef.loads never
             (Ok (response_of
                    [JsonRef.txt "data: {'a': {}}||data: {oo";
                     JsonRef.txt "ps||data: {'b': {}}||"] None))
             start_world).1
  = [[mk_ValueChange "a" [] []]; [mk_ValueChange "b" [] []]].
Proof.
  split; [|split].
  - apply (proj1 (invalid_json_frame_skipped JsonRef.loads "data: {oops"
                    "Expecting value" eq_refl)).
  - apply (proj1 (proj2 (invalid_json_frame_skipped JsonRef.loads
                           "data: {oops" "Expecting value" eq_refl))
             [JsonRef.txt "data: {'a': {}}"]
             (JsonRef.txt "data: {'b': {}}||")).
    + repeat constructor.
    + reflexivity.
    + reflexivity.
    + reflexivity.
  - apply (proj1 (proj1 (proj2 (proj2 (invalid_json_frame_skipped
                                         JsonRef.loads "data: {oops"
                                         "Expecting value" eq_refl)))
                    [JsonRef.txt "data: {'a': {}}"]
                    [JsonRef.txt "data: {'b': {}}"]
                    [[mk_ValueChange "a" [] []]]
                    [[mk_ValueChange "b" [] []]] ""
                    [JsonRef.txt "data: {'a': {}}||data: {oo";
                     JsonRef.txt "ps||data: {'b': {}}||"] start_world
                    ltac:(repeat constructor)
                    ltac:(frames_decode)
                    ltac:(frames_decode)
                    eq_refl eq_refl)).
Defined.

(** C2 fails as stated: 2000 opening brackets are not valid JSON, and on
    this text [json.loads] raises [RecursionError], which
    [_process_event_text] does not catch.  The reading ends at this frame:
    the error sink is called with a [StreamError], and the valid frame that
    follows, delivered when it stands alone, is not delivered. *)
Lemma deep_nesting_ends_stream :
  let bad := "data: " +:+ JsonRef.brackets 2000 in
  let good := JsonRef.txt "data: {'b': {}}" in
  let out :=
    run_on JsonRef.loads_bounded never
      (Ok (response_of [on_wire [bad; good]] None)) start_world in
  let alone :=
    run_on JsonRef.loads_bounded never
      (Ok (response_of [on_wire [good]] None)) start_world in
  data_str bad = JsonRef.brackets 2000 /\
  JsonRef.decode (data_str bad) = None /\
  (exists msg,
     JsonRef.loads_bounded (data_str bad) = Raise (OtherException msg) /\
     (process_event_text JsonRef.loads_bounded bad start_world).2
     = Raise (OtherException msg) /\
     failures out.1
     = [mk_error StreamError ("SSE stream error: " +:+ msg) None]) /\
  batches alone.1 = [[mk_ValueChange "b" [] []]] /\
  failures alone.1 = [] /\
  batches out.1 = [].
Proof.
  split; [by vm_compute|]. split; [by vm_compute|].
  split; [|by vm_compute].
  eexists. split; [by vm_compute|]. split; by vm_compute.
Qed.

Lemma non_update_frame_dropped_witness :
  process_event_text JsonRef.loads "data: 42" start_world
    = (start_world, Ok tt) /\
  process_event_text JsonRef.loads "data: {}" start_world
    = (start_world, Ok tt).
Proof.
  split.
  - apply (proj1 (non_update_frame_dropped JsonRef.loads "data: 42"
                    (JInt 42) eq_refl (or_introl eq_refl))).
  - apply (proj1 (non_update_frame_dropped JsonRef.loads "data: {}"
                    (JObj []) eq_refl (or_intror eq_refl))).
Defined.

Lemma stop_flag_read_once_per_chunk_witness :
  read_chunks JsonRef.loads (fun t => 0 <=? t)
    [JsonRef.txt "data: {'a': {}}||"] None "" start_world
  = (start_world, Ok tt) /\
  delivered
    (read_chunks JsonRef.loads (fun t => 2 <=? t)
       [JsonRef.txt "data: {'a': {}}||data: {'b': {}}||da"] None ""
       start_world).1
  = [(1, [mk_ValueChange "a" [] []]); (2, [mk_ValueChange "b" [] []])].
Proof.
  split.
  - apply (proj1 (stop_flag_read_once_per_chunk JsonRef.loads
                    (fun t => 0 <=? t) (JsonRef.txt "data: {'a': {}}||")
                    [] None "" start_world)).
    reflexivity.
  - apply (proj1 (proj2 (proj2 (proj2
             (proj1 (proj2 (proj2 (proj2
                (stop_flag_read_once_per_chunk JsonRef.loads
                   (fun t => 2 <=? t)
                   (JsonRef.txt "data: {'a': {}}||data: {'b': {}}||da")
                   [] None "" start_world))))
                [JsonRef.txt "data: {'a': {}}"; JsonRef.txt "data: {'b': {}}"]
                "da" eq_refl ltac:(repeat constructor) eq_refl eq_refl))
             [[mk_ValueChange "a" [] []]; [mk_ValueChange "b" [] []]]
             ltac:(frames_decode)))).
Defined.

(** ** The data lines of a frame *)

Lemma startswith_data_space line :
  PyStr.startswith line "data: " = true -> PyStr.startswith line "data:" = true.
Proof.
  destruct line as [|a [|b [|c [|d [|e [|f l]]]]]]; simpl; try done;
    rewrite ?andb_false_r; try done.
  destruct (Ascii.eqb a "d"), (Ascii.eqb b "a"), (Ascii.eqb c "t"),
    (Ascii.eqb d "a"), (Ascii.eqb e ":"); simpl; done.
Qed.

(** Every marked line takes the first branch, so that its payload is
    stripped at both ends; the second branch is never taken. *)
Lemma data_lines_eq event_text :
  data_lines event_text
  = (fun line => PyStr.strip (PyStr.slice_from 5 line))
    <$> marked_lines event_text.
Proof.
  unfold data_lines, marked_lines.
  generalize (PyStr.split_char PyStr.LF event_text). intros ls.
  set (step := fun (data_lines : list string) (line : string) => _).
  enough (H : forall acc,
            fold_left step ls acc
            = acc ++ ((fun line => PyStr.strip (PyStr.slice_from 5 line))
                      <$> filter (fun line =>
                                    PyStr.startswith line "data:" = true) ls))
    by apply (H []).
  induction ls as [|l ls IH]; intros acc; cbn [fold_left].
  - by rewrite filter_nil, fmap_nil, app_nil_r.
  - rewrite filter_cons, IH. unfold step. case_decide as Hl.
    + rewrite Hl, fmap_cons. by rewrite <- app_assoc.
    + apply not_true_is_false in Hl. rewrite Hl.
      destruct (PyStr.startswith l "data: ") eqn:E; [|done].
      apply startswith_data_space in E. congruence.
Qed.

(** One leading space more or less makes no difference once the payload is
    stripped. *)
Lemma strip_spec_payload line :
  PyStr.strip (PyStr.slice_from 5 line) = PyStr.strip (spec_payload line).
Proof.
  unfold spec_payload. destruct (PyStr.slice_from 5 line) as [|a rest]; [done|].
  destruct (Ascii.eqb_spec a " ") as [->|Hne]; [done|].
  by destruct a as [[] [] [] [] [] [] [] []].
Qed.

(** C8 (as the code has it). The lines that contribute to the data text of a
    frame block are those that start with [data:], in their order, and the
    data text joins their payloads by line feeds; it is the only text the
    frame has decoded.  The payload of a line is the text after the marker
    without one leading space, whenever that has no white space at either
    end; the payload of a line whose marker is not followed by a space is
    the text after the marker without the white space at either end. *)
Theorem data_text_of_frame (event_text : string) :
  length (data_lines event_text) = length (marked_lines event_text) /\
  (forall i line,
     marked_lines event_text !! i = Some line ->
     PyStr.strip (spec_payload line) = spec_payload line ->
     data_lines event_text !! i = Some (spec_payload line)) /\
  (forall i line,
     marked_lines event_text !! i = Some line ->
     PyStr.startswith line "data: " = false ->
     data_lines event_text !! i
     = Some (PyStr.strip (PyStr.slice_from 5 line))) /\
  data_str event_text = PyStr.join PyStr.nl (data_lines event_text) /\
  (forall decode decode' : string -> result json,
     decode (data_str event_text) = decode' (data_str event_text) ->
     process_event_text decode event_text
     = process_event_text decode' event_text).
Proof.
  split; [by rewrite data_lines_eq, length_fmap|]. split; [|split; [|split]].
  - intros i line Hi Hclean.
    by rewrite data_lines_eq, list_lookup_fmap, Hi, <- Hclean,
      <- strip_spec_payload.
  - intros i line Hi _. by rewrite data_lines_eq, list_lookup_fmap, Hi.
  - done.
  - intros decode decode' H. unfold process_event_text.
    unfold data_str in H.
    destruct (data_lines event_text); [done|]. by rewrite H.
Qed.

Lemma data_text_of_frame_witness :
  data_lines (JsonRef.txt "event: x|data: {'a': 1}|id: 7") !! 0
    = Some (JsonRef.txt "{'a': 1}") /\
  data_lines (JsonRef.txt "event: x|data:{'a': 1} |id: 7") !! 0
    = Some (JsonRef.txt "{'a': 1}").
Proof.
  split.
  - apply (proj1 (proj2 (data_text_of_frame
                           (JsonRef.txt "event: x|data: {'a': 1}|id: 7")))
             0 (JsonRef.txt "data: {'a': 1}")); reflexivity.
  - apply (proj1 (proj2 (proj2 (data_text_of_frame
                           (JsonRef.txt "event: x|data:{'a': 1} |id: 7"))))
             0 (JsonRef.txt "data:{'a': 1} ")); reflexivity.
Defined.

(** C8 fails as stated: white space at the end of a payload is removed, not
    kept, and so is every leading space, not one. *)
Lemma payload_stripped_at_both_ends :
  data_lines "data:x " = ["x"] /\ spec_data_lines "data:x " = ["x "] /\
  data_lines "data:  x" = ["x"] /\ spec_data_lines "data:  x" = [" x"] /\
  data_lines "data:x " <> spec_data_lines "data:x ".
Proof. repeat split; by vm_compute. Qed.

(** ** The transport *)

Import Transport Connection.

Section TransportFacts.

Variable json_loads : string -> result json.
Variable py_str : json -> string.
Variable network : list request -> request -> result response.

Lemma error_message_read r t :
  body r = Some t -> exists m, error_message json_loads py_str r = Ok m.
Proof.
  intros Hb. unfold error_message, response_json, text. rewrite Hb. simpl.
  destruct (json_loads t) as [[| | | | | |d]|]; simpl; eauto.
Qed.

Lemma status_class_eq (status : Z) :
  match STATUS_MAP_get status with
  | Some c => c
  | None => if (500 <=? status)%Z then ServerError else I3XError
  end = code_error_class status.
Proof.
  unfold STATUS_MAP_get, code_error_class.
  repeat case_bool_decide;
    repeat match goal with
           | |- context [(?a =? ?b)%Z] => destruct (Z.eqb_spec a b)
           | |- context [(?a <=? ?b)%Z] => destruct (Z.leb_spec a b)
           end; try done; lia.
Qed.

(** C3 (as the code has it). A response with a status below 400 raises
    nothing.  A response with a status of 400 or more whose body has been
    read raises an error that carries the status unchanged and whose kind
    is [AuthenticationError] for 401 and 403, [NotFoundError] for 404,
    [ServerError] for every other status from 500 on, also above 599, and
    the base [I3XError] for every other status from 400 to 499. *)
Theorem status_error_mapping (r : response) (t : string) :
  body r = Some t ->
  ((status_code r < 400)%Z -> check_status json_loads py_str r = Ok tt) /\
  ((400 <= status_code r)%Z ->
   exists e,
     check_status json_loads py_str r = Raise (Raised e) /\
     err_status_code e = Some (status_code r) /\
     (status_code r = 401%Z \/ status_code r = 403%Z ->
      err_class e = AuthenticationError) /\
     (status_code r = 404%Z -> err_class e = NotFoundError) /\
     ((500 <= status_code r)%Z -> err_class e = ServerError) /\
     ((status_code r < 500)%Z -> status_code r <> 401%Z ->
      status_code r <> 403%Z -> status_code r <> 404%Z ->
      err_class e = I3XError) /\
     ((status_code r <= 599)%Z ->
      err_class e = spec_error_class (status_code r))).
Proof.
  intros Hb. unfold check_status. split.
  - intros H. by destruct (Z.ltb_spec (status_code r) 400); [|lia].
  - intros H. destruct (Z.ltb_spec (status_code r) 400); [lia|].
    destruct (error_message_read r t Hb) as [m ->].
    eexists. split; [done|]. simpl. rewrite status_class_eq.
    unfold code_error_class, spec_error_class.
    repeat split; intros; repeat case_bool_decide; try done; lia.
Qed.

Lemma is_open_client s :
  is_open (this s) = false <-> client (this s) = None.
Proof. unfold is_open. by destruct (client (this s)). Qed.

Lemma request_keeps_client s m p q b s' r :
  request_ json_loads py_str network s m p q b = (s', r) -> this s' = this s.
Proof.
  unfold request_, send.
  destruct (network _ _) as [resp|[]]; by intros [= <- _].
Qed.

Lemma request_keeps_closed s m p q b s' r :
  request_ json_loads py_str network s m p q b = (s', r) ->
  closed (net s') = closed (net s) /\ created (net s') = created (net s).
Proof.
  unfold request_, send.
  destruct (network _ _) as [resp|[]]; by intros [= <- _].
Qed.

(** The state the probe of [open] leaves: a client has been created and the
    probe is on the wire, whatever came of it. *)
Lemma probe_state s :
  (get json_loads py_str network (new_client s) "/namespaces" None).1
  = mk_state (this (new_client s))
             (mk_wire (sent (net s) ++ [probe]) (S (created (net s)))
                      (closed (net s))).
Proof.
  unfold get, ensure_open, new_client. simpl. unfold request_, send. simpl.
  fold probe. by destruct (network _ _) as [r|[]].
Qed.

(** What the probe of [open] gives, by what the network does with it. *)
Lemma probe_outcome s :
  (get json_loads py_str network (new_client s) "/namespaces" None).2
  = match network (sent (net s)) probe with
    | Raise (HttpxConnectError m) =>
        Raise (Raised (mk_error ConnectionError m None))
    | Raise (HttpxTimeoutException m) =>
        Raise (Raised (mk_error TimeoutError m None))
    | Raise (HttpxHTTPError m) => Raise (Raised (mk_error I3XError m None))
    | Raise e => Raise e
    | Ok r =>
        _ <-r check_status json_loads py_str r ;;
        if (status_code r =? 204)%Z then Ok JNull
        else if PyStr.contains "application/json"
                  (default "" (content_type r))
        then response_json json_loads r
        else t <-r text r ;; Ok (JStr t)
    end.
Proof.
  unfold get, ensure_open, new_client. simpl. unfold request_, send. simpl.
  fold probe. by destruct (network _ _) as [r|[]].
Qed.

Lemma open_closed s :
  is_open (this s) = false ->
  open json_loads py_str network s
  = match get json_loads py_str network (new_client s) "/namespaces" None with
    | (s2, Raise e) => (close s2, Raise e)
    | (s2, Ok _) => (s2, Ok tt)
    end.
Proof. intros Hc%is_open_client. unfold open. by rewrite Hc. Qed.

(** C4. On an open transport [open] does nothing.  On a closed one [open]
    creates a client and probes the server with [GET /namespaces].  If the
    probe raises - the connection is refused or times out, the server
    answers with a status of 400 or more, or anything else - then [open]
    raises the same exception, typed as the probe typed it, and before it
    does the client it had created is closed and forgotten: the transport
    is as it was, closed.  If the probe succeeds the transport is open.
    When the server answers the probe with a status of 500 the exception
    raised is a [ServerError]. *)
Theorem open_rolls_back (s : state) :
  (is_open (this s) = true -> open json_loads py_str network s = (s, Ok tt)) /\
  (is_open (this s) = false ->
   forall e,
     (get json_loads py_str network (new_client s) "/namespaces" None).2
       = Raise e ->
     exists s',
       open json_loads py_str network s = (s', Raise e) /\
       this s' = this s /\ is_open (this s') = false /\
       sent (net s') = sent (net s) ++ [probe] /\
       created (net s') = S (created (net s)) /\
       closed (net s') = closed (net s) ++ [created (net s)]) /\
  (is_open (this s) = false ->
   forall v,
     (get json_loads py_str network (new_client s) "/namespaces" None).2
       = Ok v ->
     exists s',
       open json_loads py_str network s = (s', Ok tt) /\
       is_open (this s') = true /\
       sent (net s') = sent (net s) ++ [probe] /\
       created (net s') = S (created (net s)) /\
       closed (net s') = closed (net s)) /\
  (is_open (this s) = false ->
   (forall m,
      network (sent (net s)) probe = Raise (HttpxConnectError m) ->
      exists s',
        open json_loads py_str network s
        = (s', Raise (Raised (mk_error ConnectionError m None))) /\
        is_open (this s') = false) /\
   (forall m,
      network (sent (net s)) probe = Raise (HttpxTimeoutException m) ->
      exists s',
        open json_loads py_str network s
        = (s', Raise (Raised (mk_error TimeoutError m None))) /\
        is_open (this s') = false) /\
   (forall r t,
      network (sent (net s)) probe = Ok r ->
      (400 <= status_code r)%Z -> body r = Some t ->
      exists s' message,
        open json_loads py_str network s
        = (s', Raise (Raised (mk_error (code_error_class (status_code r))
                                message (Some (status_code r))))) /\
        is_open (this s') = false)) /\
  (is_open (this s) = false ->
   forall s' e,
     open json_loads py_str network s = (s', Raise e) ->
     (get json_loads py_str network (new_client s) "/namespaces" None).2
       = Raise e /\
     this s' = this s /\ is_open (this s') = false /\
     closed (net s') = closed (net s) ++ [created (net s)]) /\
  (is_open (this s) = false ->
   forall s',
     open json_loads py_str network s = (s', Ok tt) ->
     is_open (this s') = true /\ closed (net s') = closed (net s)) /\
  (is_open (this s) = false ->
   forall r t,
     network (sent (net s)) probe = Ok r ->
     status_code r = 500%Z -> body r = Some t ->
     exists s' message,
       open json_loads py_str network s
       = (s', Raise (Raised (mk_error ServerError message (Some 500%Z)))) /\
       is_open (this s') = false).
Proof.
  assert (Hraise : is_open (this s) = false ->
    forall e,
      (get json_loads py_str network (new_client s) "/namespaces" None).2
        = Raise e ->
      exists s',
        open json_loads py_str network s = (s', Raise e) /\
        this s' = this s /\ is_open (this s') = false /\
        sent (net s') = sent (net s) ++ [probe] /\
        created (net s') = S (created (net s)) /\
        closed (net s') = closed (net s) ++ [created (net s)]).
  { intros Hc e He. rewrite open_closed by done.
    pose proof (probe_state s) as Hs.
    destruct (get _ _ _ _ _ _) as [s2 res]. simpl in *. subst s2 res.
    eexists. split; [done|]. unfold close, is_open. simpl.
    apply is_open_client in Hc. destruct s as [[] ?]. simpl in *. by subst. }
  assert (Hok : is_open (this s) = false ->
    forall v,
      (get json_loads py_str network (new_client s) "/namespaces" None).2
        = Ok v ->
      exists s',
        open json_loads py_str network s = (s', Ok tt) /\
        is_open (this s') = true /\
        sent (net s') = sent (net s) ++ [probe] /\
        created (net s') = S (created (net s)) /\
        closed (net s') = closed (net s)).
  { intros Hc v Hv. rewrite open_closed by done.
    pose proof (probe_state s) as Hs.
    destruct (get _ _ _ _ _ _) as [s2 res]. simpl in *. subst s2 res.
    eexists. by split. }
  assert (Hstatus : is_open (this s) = false ->
    forall r t,
      network (sent (net s)) probe = Ok r ->
      (400 <= status_code r)%Z -> body r = Some t ->
      exists s' message,
        open json_loads py_str network s
        = (s', Raise (Raised (mk_error (code_error_class (status_code r))
                                message (Some (status_code r))))) /\
        is_open (this s') = false).
  { intros Hc r t Hn Hst Hb.
    destruct (error_message_read r t Hb) as [m Hm].
    destruct (Hraise Hc (Raised (mk_error (code_error_class (status_code r))
                                   m (Some (status_code r)))))
      as (s' & Ho & _ & Hcl & _).
    - rewrite probe_outcome, Hn. unfold check_status.
      destruct (Z.ltb_spec (status_code r) 400); [lia|].
      rewrite Hm. simpl. by rewrite status_class_eq.
    - by exists s', m. }
  split; [|split; [done|split; [done|split; [|split; [|split]]]]].
  - unfold open, is_open. by destruct (client (this s)).
  - intros Hc. split; [|split; [|by apply Hstatus]].
    + intros m Hn.
      destruct (Hraise Hc (Raised (mk_error ConnectionError m None)))
        as (s' & Ho & _ & Hcl & _); [by rewrite probe_outcome, Hn|].
      by exists s'.
    + intros m Hn.
      destruct (Hraise Hc (Raised (mk_error TimeoutError m None)))
        as (s' & Ho & _ & Hcl & _); [by rewrite probe_outcome, Hn|].
      by exists s'.
  - intros Hc s' e Ho.
    destruct (get json_loads py_str network (new_client s) "/namespaces" None)
      as [s2 [v|x]] eqn:E.
    + destruct (Hok Hc v) as (s3 & Ho' & _);
        [first [by rewrite E|done]|].
      congruence.
    + destruct (Hraise Hc x) as (s3 & Ho' & H1 & H2 & _ & _ & H3);
        [first [by rewrite E|done]|].
      rewrite Ho in Ho'. by injection Ho' as -> ->.
  - intros Hc s' Ho.
    destruct (get json_loads py_str network (new_client s) "/namespaces" None)
      as [s2 [v|x]] eqn:E.
    + destruct (Hok Hc v) as (s3 & Ho' & H1 & _ & _ & H2);
        [first [by rewrite E|done]|].
      rewrite Ho in Ho'. by injection Ho' as ->.
    + destruct (Hraise Hc x) as (s3 & Ho' & _);
        [first [by rewrite E|done]|].
      congruence.
  - intros Hc r t Hn Hst Hb.
    destruct (Hstatus Hc r t Hn) as (s' & m & Ho & Hcl); [lia|done|].
    rewrite Hst in Ho. by exists s', m.
Qed.

(** C9 (as the code has it). Every request on a transport that is not open
    raises a [ConnectionError] with the message below and no status code;
    nothing is handed to [httpx] and the state is as before. *)
Theorem request_on_closed_transport (s : state) (path : string)
    (params payload : option json) :
  is_open (this s) = false ->
  get json_loads py_str network s path params = (s, Raise not_connected) /\
  post json_loads py_str network s path payload = (s, Raise not_connected) /\
  put json_loads py_str network s path payload = (s, Raise not_connected) /\
  delete json_loads py_str network s path = (s, Raise not_connected) /\
  stream_get json_loads py_str network s path = (s, Raise not_connected).
Proof.
  intros H. apply is_open_client in H.
  unfold get, post, put, delete, stream_get, ensure_open. by rewrite H.
Qed.

End TransportFacts.


Lemma status_error_mapping_witness :
  exists e,
    check_status JsonRef.loads JsonRef.str
      (mk_response 404 (Some "application/json")
         (Some (JsonRef.txt "{'detail': 'Not Found'}")) [] None)
    = Raise (Raised e) /\
    err_status_code e = Some 404%Z /\ err_class e = NotFoundError.
Proof.
  destruct (proj2 (status_error_mapping JsonRef.loads JsonRef.str
              (mk_response 404 (Some "application/json")
                 (Some (JsonRef.txt "{'detail': 'Not Found'}")) [] None)
              (JsonRef.txt "{'detail': 'Not Found'}") eq_refl))
    as (e & Hraise & Hcode & _ & Hnf & _).
  - simpl. lia.
  - exists e. split; [exact Hraise|]. split; [exact Hcode|].
    apply Hnf. reflexivity.
Defined.

(** C3 fails as stated: a status of 600 is not in 500-599, and the error
    raised for it is a [ServerError], not the base [I3XError]. *)
Lemma status_600_is_server_error :
  check_status JsonRef.loads JsonRef.str
    (mk_response 600 (Some "application/json")
       (Some (JsonRef.txt "{'detail': 'odd'}")) [] None)
  = Raise (Raised (mk_error ServerError "odd" (Some 600%Z))) /\
  spec_error_class 600 = I3XError /\
  ServerError <> spec_error_class 600.
Proof. repeat split; by vm_compute. Qed.


Lemma open_rolls_back_witness :
  (exists s' message,
     open JsonRef.loads JsonRef.str
       (answering 500 (JsonRef.txt "{'detail': 'Internal Error'}"))
       closed_state
     = (s', Raise (Raised (mk_error ServerError message (Some 500%Z)))) /\
     is_open (this s') = false) /\
  (exists s',
     open JsonRef.loads JsonRef.str refusing closed_state
     = (s', Raise (Raised (mk_error ConnectionError
                             "All connection attempts failed" None))) /\
     is_open (this s') = false).
Proof.
  split.
  - apply (proj2 (proj2 (proj2 (proj2 (proj2 (proj2
             (open_rolls_back JsonRef.loads JsonRef.str
                (answering 500 (JsonRef.txt "{'detail': 'Internal Error'}"))
                closed_state)))))) eq_refl
             (mk_response 500 (Some "application/json")
                (Some (JsonRef.txt "{'detail': 'Internal Error'}")) [] None)
             (JsonRef.txt "{'detail': 'Internal Error'}"));
      reflexivity.
  - apply (proj1 (proj1 (proj2 (proj2 (proj2
             (open_rolls_back JsonRef.loads JsonRef.str refusing
                closed_state)))) eq_refl)
             "All connection attempts failed").
    reflexivity.
Defined.

Lemma request_on_closed_transport_witness :
  get JsonRef.loads JsonRef.str refusing closed_state "/namespaces" None
  = (closed_state, Raise not_connected).
Proof.
  apply (request_on_closed_transport JsonRef.loads JsonRef.str refusing
           closed_state "/namespaces" None None).
  reflexivity.
Defined.

(** C9 fails as stated: the error of a request on a closed transport and the
    error of a refused connection on an open one are of one and the same
    kind, [ConnectionError]; the hierarchy has no kind of its own for the
    first. *)
Lemma not_connected_is_connection_error :
  exists e1 e2,
    (get JsonRef.loads JsonRef.str refusing closed_state "/namespaces" None).2
      = Raise (Raised e1) /\
    (get JsonRef.loads JsonRef.str refusing (new_client closed_state)
         "/namespaces" None).2 = Raise (Raised e2) /\
    err_class e1 = ConnectionError /\ err_class e2 = ConnectionError /\
    ~ err_class e1 <> err_class e2.
Proof.
  eexists _, _. split; [by vm_compute|]. split; [by vm_compute|].
  repeat split. intros H. by apply H.
Qed.

(** ** The parsed records *)

Import Snapshots.


Lemma from_response_eqn eid d :
  from_response eid (JObj d) =
  match parse_vqts d with
  | Raise e => Raise e
  | Ok vqts =>
      match children_loop d [] with
      | Raise e => Raise e
      | Ok children => Ok (mk_LastKnownValue eid vqts children)
      end
  end.
Proof.
  simpl. destruct (parse_vqts d) as [vqts|e]; [|done].
  match goal with
  | |- match ?f d [] with _ => _ end = _ =>
      assert (H : forall items acc, f items acc = children_loop items acc)
  end.
  { induction items as [|[k x] rest IH]; intros acc; simpl; [done|].
    destruct (String.eqb k "data"); [apply IH|].
    destruct (from_response k x); [apply IH|done]. }
  by rewrite H.
Qed.

Lemma dict_set_fresh {A} (d : Dict.t A) k v :
  k ∉ Dict.keys d -> Dict.set d k v = d ++ [(k, v)].
Proof.
  induction d as [|[k' v'] d IH]; intros Hk; simpl; [done|].
  unfold Dict.keys in *. rewrite fmap_cons in Hk. simpl in Hk.
  apply not_elem_of_cons in Hk as [Hne Hk].
  destruct (String.eqb_spec k' k); [congruence|]. by rewrite IH.
Qed.

Lemma dict_get_app_fresh {A} (d1 d2 : Dict.t A) k :
  k ∉ Dict.keys d1 -> Dict.get (d1 ++ d2) k = Dict.get d2 k.
Proof.
  induction d1 as [|[k' v'] d IH]; intros Hk; simpl; [done|].
  unfold Dict.keys in *. rewrite fmap_cons in Hk. simpl in Hk.
  apply not_elem_of_cons in Hk as [Hne Hk].
  destruct (String.eqb_spec k' k); [congruence|]. by apply IH.
Qed.

(** The children built by the loop: one entry per item not under [data], in
    the order of the items, each the parse of the item's value. *)
Lemma child_items_cons {A} (k : string) (x : A) (rest : list (string * A)) :
  child_items ((k, x) :: rest)
  = if String.eqb k "data" then child_items rest
    else (k, x) :: child_items rest.
Proof.
  unfold child_items. rewrite filter_cons. simpl.
  destruct (String.eqb_spec k "data") as [->|Hk].
  - by rewrite decide_False by (by intros H; apply H).
  - by rewrite decide_True.
Qed.


Lemma dict_get_elem {A} (d : list (string * A)) k v :
  NoDup (Dict.keys d) -> (k, v) ∈ d -> Dict.get d k = Some v.
Proof.
  induction d as [|[k' v'] d IH]; intros Hnd Hin;
    [by apply elem_of_nil in Hin|].
  unfold Dict.keys in Hnd. rewrite fmap_cons in Hnd. simpl in *.
  inversion Hnd as [|? ? Hk' Hrest]; subst.
  apply elem_of_cons in Hin as [[= <- <-]|Hin].
  - by rewrite String.eqb_refl.
  - destruct (String.eqb_spec k' k) as [->|Hne]; [|by apply IH].
    exfalso. apply Hk'. apply list_elem_of_fmap. by exists (k, v).
Qed.


Lemma child_items_keys {A} (d : list (string * A)) :
  Dict.keys (child_items d) = filter (fun k => k <> "data") (Dict.keys d).
Proof.
  unfold Dict.keys. induction d as [|[k v] d IH]; [done|].
  rewrite child_items_cons, fmap_cons, filter_cons. simpl.
  destruct (String.eqb_spec k "data") as [->|Hk].
  - by rewrite decide_False by (by intros H; apply H).
  - rewrite decide_True by done. by rewrite fmap_cons, IH.
Qed.

Lemma child_data_spec (vd : list (string * json)) :
  Dict.wf vd ->
  child_data vd = (fun kv => (kv.1, PyJson kv.2)) <$> child_items vd.
Proof.
  unfold child_data, Dict.wf.
  set (step := fun (acc : Dict.t py_any) (kv : string * json) => _).
  enough (H : forall acc,
            NoDup (Dict.keys acc ++ Dict.keys vd) ->
            fold_left step vd acc
            = acc ++ ((fun kv => (kv.1, PyJson kv.2)) <$> child_items vd))
    by (intros Hnd; by apply (H [])).
  induction vd as [|[k v] vd IH]; intros acc Hnd; cbn [fold_left].
  - by rewrite app_nil_r.
  - unfold Dict.keys in Hnd. rewrite fmap_cons in Hnd. simpl in Hnd.
    apply NoDup_app in Hnd as (H1 & H2 & H3).
    inversion H3 as [|? ? Hk' Hrest]; subst.
    rewrite child_items_cons. unfold step at 2. simpl.
    destruct (String.eqb k "data").
    + apply IH. apply NoDup_app. repeat split; [done| |done].
      intros y Hy Hy'. apply (H2 y Hy). by right.
    + assert (Hfresh : k ∉ Dict.keys acc).
      { intros Hin. apply (H2 k Hin). by left. }
      rewrite dict_set_fresh by done. rewrite IH.
      * by rewrite fmap_cons, <- app_assoc.
      * unfold Dict.keys. rewrite fmap_app. simpl.
        apply NoDup_app. repeat split; [|intros y Hy Hy'|done].
        -- apply NoDup_app. repeat split; [done| |apply NoDup_singleton].
           intros y Hy Hy'. apply list_elem_of_singleton in Hy'. by subst.
        -- apply elem_of_app in Hy as [Hy|Hy].
           ++ apply (H2 y Hy). by right.
           ++ apply list_elem_of_singleton in Hy. by subst.
Qed.

Lemma rmap_total {A B} (f : A -> result B) xs :
  Forall (fun x => exists y, f x = Ok y) xs -> exists ys, rmap f xs = Ok ys.
Proof.
  induction 1 as [|x xs [y Hy] _ [ys IH]]; simpl; [by eexists|].
  rewrite Hy, IH. by eexists.
Qed.

Lemma rmap_Forall2 {A B} (f : A -> result B) xs ys :
  rmap f xs = Ok ys -> Forall2 (fun x y => f x = Ok y) xs ys.
Proof.
  revert ys. induction xs as [|x xs IH]; intros ys; simpl.
  - intros [= <-]. constructor.
  - destruct (f x) as [y|e] eqn:E; [|done].
    destruct (rmap f xs) as [ys'|e]; [|done].
    intros [= <-]. constructor; [done|by apply IH].
Qed.








(** ** The subscription registry *)

Import SubscriptionManager Registry.

Section RegistryFacts.

Variable alive : nat -> bool.

Lemma live_stop r : live (stop r) = false.
Proof. done. Qed.

Lemma registry_inv_init : registry_inv init.
Proof. split; [by intros sid a H|by intros [|a] r H]. Qed.

Lemma registry_inv_add m sid : registry_inv m -> registry_inv (add alive m sid).
Proof.
  intros [I1 I2]. unfold add.
  destruct (streams m !! sid) as [a|] eqn:E; [done|]. simpl. split.
  - intros sid' a' H. simpl in H.
    destruct (decide (sid = sid')) as [<-|Hne].
    + rewrite lookup_insert_eq in H. simplify_eq.
      exists (mk_reader sid false (Some (threads m))).
      split; [|done]. simpl. rewrite lookup_app_r by done.
      by rewrite Nat.sub_diag.
    + rewrite lookup_insert_ne in H by done.
      destruct (I1 _ _ H) as (r & Hr & Hs & Hl). exists r.
      split; [|done]. by apply lookup_app_l_Some.
  - intros a' r H Hl. simpl in *.
    apply lookup_app_Some in H as [H|[Hlen H]].
    + pose proof (I2 _ _ H Hl) as Hs.
      rewrite lookup_insert_ne; [done|]. intros Heq. congruence.
    + destruct (a' - length (objects m)) as [|n] eqn:En; [|done].
      simpl in H. simplify_eq. simpl. rewrite lookup_insert_eq.
      f_equal. lia.
Qed.

Lemma registry_inv_remove m sid : registry_inv m -> registry_inv (remove m sid).
Proof.
  intros [I1 I2]. unfold remove.
  destruct (streams m !! sid) as [a|] eqn:E; [|done]. simpl. split.
  - intros sid' a' H. simpl in H.
    apply lookup_delete_Some in H as [Hne H].
    destruct (I1 _ _ H) as (r & Hr & Hs & Hl). exists r. split; [|done].
    simpl. rewrite list_lookup_alter_ne; [done|]. intros Heq. subst a'.
    destruct (I1 _ _ E) as (r' & Hr' & Hs' & _). congruence.
  - intros a' r H Hl. simpl in *.
    destruct (decide (a = a')) as [<-|Hne].
    + rewrite list_lookup_alter_eq in H.
      destruct (objects m !! a) as [r0|]; simpl in H; [|done].
      injection H as <-. by rewrite live_stop in Hl.
    + rewrite list_lookup_alter_ne in H by done.
      pose proof (I2 _ _ H Hl) as Hs.
      rewrite lookup_delete_ne; [done|]. intros Heq. congruence.
Qed.

(** What the loop of [stop_all] does to the readers: those the manager
    refers to are stopped, the others are left alone. *)
Lemma stop_all_objects (streams : gmap string nat) (objs : list reader) a :
  let stopped :=
    map_fold (fun _ address objs => alter stop address objs) objs streams in
  (stopped !! a = objs !! a /\ forall sid, streams !! sid <> Some a) \/
  (stopped !! a = stop <$> objs !! a /\ exists sid, streams !! sid = Some a).
Proof.
  apply (map_fold_weak_ind
           (fun res (s : gmap string nat) =>
              (res !! a = objs !! a /\ forall sid, s !! sid <> Some a) \/
              (res !! a = stop <$> objs !! a /\
               exists sid, s !! sid = Some a))).
  - left. split; [done|]. intros sid. by rewrite lookup_empty.
  - intros sid a' s res Hs IH.
    destruct (decide (a' = a)) as [->|Hne].
    + right. split; [|exists sid; by rewrite lookup_insert_eq].
      rewrite list_lookup_alter_eq.
      destruct IH as [[-> _]|[-> _]]; [done|]. by destruct (objs !! a).
    + rewrite list_lookup_alter_ne by done.
      destruct IH as [[IH Hno]|[IH [sid' Hsid']]]; [left|right]; split;
        try done.
      * intros sid'. destruct (decide (sid = sid')) as [<-|Hs'].
        -- rewrite lookup_insert_eq. congruence.
        -- rewrite lookup_insert_ne by done. apply Hno.
      * exists sid'. rewrite lookup_insert_ne; [done|]. intros <-. congruence.
Qed.

Lemma registry_inv_stop_all m : registry_inv m -> registry_inv (stop_all m).
Proof.
  intros [I1 I2]. unfold stop_all. split; simpl.
  - intros sid a H. by rewrite lookup_empty in H.
  - intros a r H Hl. exfalso.
    destruct (stop_all_objects (streams m) (objects m) a)
      as [[Heq Hno]|[Heq _]]; simpl in Heq; rewrite Heq in H.
    + apply (Hno (subscription_id r)). by apply I2.
    + destruct (objects m !! a) as [r0|]; simpl in H; [|done].
      injection H as <-. by rewrite live_stop in Hl.
Qed.

Lemma registry_inv_run calls : registry_inv (run alive calls).
Proof.
  unfold run. generalize registry_inv_init. generalize init.
  induction calls as [|c calls IH]; intros m Hm; [done|].
  simpl. apply IH. destruct c; simpl.
  - by apply registry_inv_add.
  - by apply registry_inv_remove.
  - by apply registry_inv_stop_all.
Qed.

Lemma filter_none {A} (P : A -> Prop) `{!forall x, Decision (P x)}
    (l : list A) :
  (forall x, x ∈ l -> ~ P x) -> filter P l = [].
Proof.
  induction l as [|x l IH]; intros Hall; [done|].
  rewrite filter_cons, decide_False by (apply Hall; by left).
  apply IH. intros y Hy. apply Hall. by right.
Qed.

Lemma filter_only {A} (P : A -> Prop) `{!forall x, Decision (P x)}
    (l : list A) (a : A) :
  NoDup l -> a ∈ l -> (forall x, x ∈ l -> P x <-> x = a) ->
  filter P l = [a].
Proof.
  induction l as [|x l IH]; intros Hnd Hin Hall;
    [by apply elem_of_nil in Hin|].
  inversion Hnd as [|? ? Hx Hl]; subst. rewrite filter_cons.
  apply elem_of_cons in Hin as [<-|Hin].
  - rewrite decide_True by (apply Hall; [by left|done]).
    f_equal. apply filter_none. intros y Hy Hp.
    apply Hall in Hp; [|by right]. by subst.
  - rewrite decide_False.
    + apply IH; [done..|]. intros y Hy. apply Hall. by right.
    + intros Hp. apply Hall in Hp; [|by left]. by subst.
Qed.

(** Under the invariant the live readers of an id are the one the manager
    has filed under it, if any. *)
Lemma live_readers_inv m sid :
  registry_inv m ->
  live_readers m sid
  = match streams m !! sid with Some a => [a] | None => [] end.
Proof.
  intros [I1 I2]. unfold live_readers.
  destruct (streams m !! sid) as [a|] eqn:E.
  - destruct (I1 _ _ E) as (r & Hr & Hs & Hl).
    apply filter_only.
    + apply NoDup_seq.
    + apply elem_of_seq. apply lookup_lt_Some in Hr. lia.
    + intros x _. split.
      * intros Hx. destruct (objects m !! x) as [r'|] eqn:Ex; [|done].
        apply andb_true_iff in Hx as [Hl' Hs'].
        apply String.eqb_eq in Hs'. pose proof (I2 _ _ Ex Hl') as H.
        rewrite Hs' in H. congruence.
      * intros ->. rewrite Hr, Hl, <- Hs. simpl. apply String.eqb_refl.
  - apply filter_none. intros x _ Hx.
    destruct (objects m !! x) as [r'|] eqn:Ex; [|done].
    apply andb_true_iff in Hx as [Hl' Hs'].
    apply String.eqb_eq in Hs'. pose proof (I2 _ _ Ex Hl') as H.
    rewrite Hs' in H. congruence.
Qed.

(** C6. Whatever calls have been made, a subscription id has at most one
    live reader, the one filed under it by the manager.  [add] on an id that
    has a reader changes nothing, so that two [add] in a row leave exactly
    one live reader for the id; [remove] stops the reader of an id and
    forgets it, and changes nothing when the id has none. *)
Theorem one_reader_per_subscription :
  (forall calls sid,
     live_readers (run alive calls) sid
     = match streams (run alive calls) !! sid with
       | Some a => [a]
       | None => []
       end) /\
  (forall calls sid, length (live_readers (run alive calls) sid) <= 1) /\
  (forall m sid, is_Some (streams m !! sid) -> add alive m sid = m) /\
  (forall calls sid,
     let once := add alive (run alive calls) sid in
     add alive once sid = once /\ length (live_readers once sid) = 1 /\
     is_Some (streams once !! sid)) /\
  (forall m sid a,
     streams m !! sid = Some a ->
     streams (remove m sid) !! sid = None /\
     objects (remove m sid) !! a = stop <$> objects m !! a /\
     (forall sid', sid' <> sid ->
        streams (remove m sid) !! sid' = streams m !! sid') /\
     (forall a', a' <> a -> objects (remove m sid) !! a' = objects m !! a')) /\
  (forall m sid, streams m !! sid = None -> remove m sid = m).
Proof.
  split; [|split; [|split; [|split; [|split]]]].
  - intros calls sid. apply live_readers_inv, registry_inv_run.
  - intros calls sid. rewrite live_readers_inv by apply registry_inv_run.
    destruct (streams _ !! sid); simpl; lia.
  - intros m sid [a Ha]. unfold add. by rewrite Ha.
  - intros calls sid once.
    assert (Hin : is_Some (streams once !! sid)).
    { unfold once, add. destruct (streams (run alive calls) !! sid) eqn:E.
      - by rewrite E.
      - simpl. by rewrite lookup_insert_eq. }
    split; [|split; [|done]].
    + destruct Hin as [a Ha]. unfold add at 1. by rewrite Ha.
    + unfold once. rewrite live_readers_inv
        by apply (registry_inv_add _ _ (registry_inv_run calls)).
      fold once. by destruct Hin as [a ->].
  - intros m sid a Ha. unfold remove. rewrite Ha. simpl.
    split; [apply lookup_delete_eq|]. split; [apply list_lookup_alter_eq|].
    split.
    + intros sid' Hne. by apply lookup_delete_ne.
    + intros a' Hne. by apply list_lookup_alter_ne.
  - intros m sid Hno. unfold remove. by rewrite Hno.
Qed.

End RegistryFacts.

Lemma one_reader_per_subscription_witness :
  add (fun _ => true) (run (fun _ => true) [Add "sub-1"]) "sub-1"
  = run (fun _ => true) [Add "sub-1"].
Proof.
  apply (proj1 (proj2 (proj2 (one_reader_per_subscription (fun _ => true))))
           (run (fun _ => true) [Add "sub-1"]) "sub-1").
  by eexists.
Defined.

(** * Further properties *)

(** ** The transport: addresses, requests, errors and clients *)

Import Transport Connection Calls.

Section TransportMore.
Variable json_loads : string -> result json.
Variable py_str : json -> string.
Variable network : list request -> request -> result response.

Lemma rstrip_slash_split s :
  exists n, s = rstrip_slash s +:+ slashes n.
Proof.
  induction s as [|a s [n IH]]; [by exists 0|].
  simpl. destruct (rstrip_slash s) as [|b r] eqn:E.
  - destruct (Ascii.eqb_spec a "/") as [->|Hne].
    + exists (S n). simpl. by rewrite IH at 1.
    + exists n. by rewrite IH at 1.
  - exists n. by rewrite IH at 1.
Qed.

Lemma rstrip_slash_last s : last_char (rstrip_slash s) <> Some "/"%char.
Proof.
  induction s as [|a s IH]; [done|].
  simpl. destruct (rstrip_slash s) as [|b r] eqn:E.
  - destruct (Ascii.eqb_spec a "/") as [->|Hne]; simpl; congruence.
  - done.
Qed.

Lemma rstrip_slash_fixed s :
  last_char s <> Some "/"%char -> rstrip_slash s = s.
Proof.
  induction s as [|a s IH]; [done|]. intros H.
  destruct s as [|b s].
  - simpl in *. destruct (Ascii.eqb_spec a "/"); congruence.
  - specialize (IH H). remember (String b s) as t eqn:Et.
    simpl. rewrite IH. by subst t.
Qed.

(** X1. [Transport(base_url)] keeps the address up to its trailing slashes,
    all of which it drops. *)
Theorem base_url_without_trailing_slash (url : string)
    (auth : option (string * string)) :
  (exists n, url = base_url (Transport.init url auth) +:+ slashes n) /\
  last_char (base_url (Transport.init url auth)) <> Some "/"%char /\
  base_url (Transport.init (base_url (Transport.init url auth)) auth)
  = base_url (Transport.init url auth) /\
  is_open (Transport.init url auth) = false.
Proof.
  repeat split.
  - apply rstrip_slash_split.
  - apply rstrip_slash_last.
  - simpl. apply rstrip_slash_fixed, rstrip_slash_last.
Qed.

Lemma is_open_Some s :
  is_open (this s) = true <-> exists c, client (this s) = Some c.
Proof.
  unfold is_open. destruct (client (this s)) as [c|]; split; try done.
  - by exists c.
  - by intros [c Hc].
Qed.

Lemma request_state s m p q b :
  (request_ json_loads py_str network s m p q b).1
  = after_send s (mk_request m p q b false).
Proof.
  unfold request_, send, after_send.
  by destruct (network _ _) as [resp|[]].
Qed.

Lemma stream_get_state s p :
  is_open (this s) = true ->
  (stream_get json_loads py_str network s p).1
  = after_send s (mk_request "GET" p None None true).
Proof.
  intros [c Hc]%is_open_Some. unfold stream_get, ensure_open, send, after_send.
  rewrite Hc. by destruct (network _ _) as [resp|[]].
Qed.

Lemma get_state s p q :
  is_open (this s) = true ->
  (get json_loads py_str network s p q).1
  = after_send s (mk_request "GET" p q None false).
Proof.
  intros [c Hc]%is_open_Some. unfold get, ensure_open. rewrite Hc.
  apply request_state.
Qed.


(** X2. On an open transport every call hands exactly one request to [httpx],
    the one asked for, and whatever comes of it the transport stays open
    with the client it had. *)
Theorem one_request_per_call (s : state) (path : string)
    (params payload : option json) :
  is_open (this s) = true ->
  (get json_loads py_str network s path params).1
    = after_send s (mk_request "GET" path params None false) /\
  (post json_loads py_str network s path payload).1
    = after_send s (mk_request "POST" path None payload false) /\
  (put json_loads py_str network s path payload).1
    = after_send s (mk_request "PUT" path None payload false) /\
  (delete json_loads py_str network s path).1
    = after_send s (mk_request "DELETE" path None None false) /\
  (stream_get json_loads py_str network s path).1
    = after_send s (mk_request "GET" path None None true).
Proof.
  intros Ho. pose proof Ho as [c Hc]%is_open_Some.
  unfold get, post, put, delete, ensure_open. rewrite Hc.
  rewrite !request_state. repeat split. by apply stream_get_state.
Qed.



(** X4. The message of the error raised for a status of 400 or more comes from
    the body: the [detail] member of a JSON object, else its [message]
    member, else the text of the body; and the text of the body when the
    body is not JSON or not an object. *)
Theorem error_message_precedence (r : response) (t : string) :
  body r = Some t -> (400 <= status_code r)%Z ->
  exists e,
    check_status json_loads py_str r = Raise (Raised e) /\
    (forall detail v,
       json_loads t = Ok (JObj detail) ->
       Dict.get detail "detail" = Some v -> err_message e = str_of py_str v) /\
    (forall detail v,
       json_loads t = Ok (JObj detail) ->
       Dict.get detail "detail" = None ->
       Dict.get detail "message" = Some v ->
       err_message e = str_of py_str v) /\
    (forall detail,
       json_loads t = Ok (JObj detail) ->
       Dict.get detail "detail" = None ->
       Dict.get detail "message" = None -> err_message e = t) /\
    (forall v, json_loads t = Ok v -> (forall d, v <> JObj d) ->
       err_message e = t) /\
    (forall x, json_loads t = Raise x -> err_message e = t).
Proof.
  intros Hb Hs. unfold check_status.
  destruct (Z.ltb_spec (status_code r) 400); [lia|].
  unfold error_message, response_json, text. rewrite Hb. simpl.
  destruct (json_loads t) as [v|x] eqn:E.
  - destruct v as [| | | | | |d];
      try (eexists; split; [done|]; repeat split; intros; simplify_eq; try done;
           by match goal with H : forall d, _ <> JObj d |- _ =>
                destruct (H _ eq_refl) end).
    eexists. split; [done|]. simpl. unfold Dict.get_default.
    repeat split.
    + intros detail v [= <-] Hd. by rewrite Hd.
    + intros detail v [= <-] Hd Hm. by rewrite Hd, Hm.
    + intros detail [= <-] Hd Hm. by rewrite Hd, Hm.
    + intros v [= <-] Hv. by destruct (Hv d).
    + done.
  - eexists. split; [done|]. by repeat split.
Qed.


Lemma clients_in_order_send s q :
  clients_in_order s -> clients_in_order (after_send s q).
Proof. intros H. exact H. Qed.

Lemma clients_in_order_close s :
  clients_in_order s -> clients_in_order (close s).
Proof.
  intros Hs. unfold close.
  destruct (client (this s)) as [c|] eqn:Hc; [|exact Hs].
  destruct Hs as (H1 & H0 & H2 & H3).
  destruct (H1 c Hc) as (Hid & Hnot & Hlen).
  split; [done|]. simpl. split; [|split].
  - intros _. rewrite length_app. simpl. lia.
  - intros i [Hi|Hi%list_elem_of_singleton]%elem_of_app; [by apply H2|].
    subst i. lia.
  - apply NoDup_app. split; [done|]. split; [|apply NoDup_singleton].
    intros i Hi Hi'%list_elem_of_singleton. by subst i.
Qed.

Lemma clients_in_order_new s :
  clients_in_order s -> client (this s) = None ->
  clients_in_order (new_client s).
Proof.
  intros (H1 & H0 & H2 & H3) Hc. unfold new_client.
  split; [|split; [|split]]; simpl.
  - intros c [= <-]. simpl. split; [done|]. split; [|by rewrite H0].
    intros Hin%H2. lia.
  - done.
  - intros i Hi%H2. lia.
  - done.
Qed.

Lemma clients_in_order_step s k :
  clients_in_order s ->
  clients_in_order (transport_step json_loads py_str network s k).
Proof.
  intros Hs. destruct k as [| |p q|p b|p b|p|p]; simpl.
  - unfold open. destruct (client (this s)) as [c|] eqn:Hc; [done|].
    pose proof (clients_in_order_new s Hs Hc) as Hn.
    assert (Ho : is_open (this (new_client s)) = true) by done.
    pose proof (get_state (new_client s) "/namespaces" None Ho) as Hg.
    destruct (get _ _ _ _ _ _) as [s2 [v|x]]; simpl in *; subst s2.
    + by apply clients_in_order_send.
    + by apply clients_in_order_close, clients_in_order_send.
  - by apply clients_in_order_close.
  - unfold get, ensure_open. destruct (client (this s)); [|done].
    rewrite request_state. by apply clients_in_order_send.
  - unfold post, ensure_open. destruct (client (this s)); [|done].
    rewrite request_state. by apply clients_in_order_send.
  - unfold put, ensure_open. destruct (client (this s)); [|done].
    rewrite request_state. by apply clients_in_order_send.
  - unfold delete, ensure_open. destruct (client (this s)); [|done].
    rewrite request_state. by apply clients_in_order_send.
  - destruct (is_open (this s)) eqn:Ho.
    + rewrite stream_get_state by done. by apply clients_in_order_send.
    + unfold stream_get, ensure_open. unfold is_open in Ho.
      by destruct (client (this s)).
Qed.

Lemma clients_in_order_run url auth ks :
  clients_in_order (transport_run json_loads py_str network url auth ks).
Proof.
  unfold transport_run.
  assert (H0 : clients_in_order
                 (mk_state (Transport.init url auth) (mk_wire [] 0 []))).
  { split; [done|]. split; [done|]. split; [|constructor].
    by intros i Hi%elem_of_nil. }
  revert H0. generalize (mk_state (Transport.init url auth) (mk_wire [] 0 [])).
  induction ks as [|k ks IH]; intros s Hs; [done|].
  simpl. apply IH. by apply clients_in_order_step.
Qed.

(** X6. Whatever calls are made on a transport, every client it creates is
    closed at most once, the client it holds has not been closed (a
    transport opened again gets a new client), and while it is closed every
    client it ever created has been closed. *)
Theorem client_never_reused (url : string) (auth : option (string * string))
    (ks : list transport_call) :
  let s := transport_run json_loads py_str network url auth ks in
  NoDup (closed (net s)) /\
  (forall i, i ∈ closed (net s) -> i < created (net s)) /\
  (forall c, client (this s) = Some c ->
     S (client_id c) = created (net s) /\
     (client_id c ∉ closed (net s))) /\
  (is_open (this s) = false -> length (closed (net s)) = created (net s)).
Proof.
  intros s. destruct (clients_in_order_run url auth ks) as (H1 & H0 & H2 & H3).
  fold s in H1, H0, H2, H3. repeat split; try done.
  - by destruct (H1 c) as (? & ? & ?).
  - by destruct (H1 c) as (? & ? & ?).
  - intros Ho. apply H0. unfold is_open in Ho. by destruct (client (this s)).
Qed.

End TransportMore.


Lemma one_request_per_call_witness :
  (get JsonRef.loads JsonRef.str refusing (new_client closed_state)
       "/objects" None).1
  = after_send (new_client closed_state)
      (mk_request "GET" "/objects" None None false).
Proof.
  apply (one_request_per_call JsonRef.loads JsonRef.str refusing
           (new_client closed_state) "/objects" None None).
  reflexivity.
Defined.


Lemma error_message_precedence_witness :
  exists e,
    check_status JsonRef.loads JsonRef.str
      (mk_response 404 (Some "application/json")
         (Some (JsonRef.txt "{'message': 'gone', 'detail': 'Not Found'}"))
         [] None)
    = Raise (Raised e) /\
    err_message e = "Not Found".
Proof.
  destruct (error_message_precedence JsonRef.loads JsonRef.str
              (mk_response 404 (Some "application/json")
                 (Some (JsonRef.txt
                          "{'message': 'gone', 'detail': 'Not Found'}"))
                 [] None)
              (JsonRef.txt "{'message': 'gone', 'detail': 'Not Found'}")
              eq_refl)
    as (e & Hraise & Hdetail & _).
  - simpl. lia.
  - exists e. split; [exact Hraise|].
    apply (Hdetail [("message", JStr "gone"); ("detail", JStr "Not Found")]
             (JStr "Not Found")); reflexivity.
Defined.


(** ** The stream reader: how a reading ends, and what a frame gives *)

Import Models SSE SSEStream Reading Snapshots Delivery.

Section ReaderMore.
Variable json_loads : string -> result json.

Lemma drain_only_delivers fuel buffer :
  only_delivers (drain json_loads fuel buffer).
Proof.
  revert buffer. induction fuel as [|fuel IH]; intros buffer w; simpl.
  - destruct (PyStr.split_once _ _) as [[e r]|]; exists []; simpl;
      destruct w; simpl; by rewrite app_nil_r.
  - destruct (PyStr.split_once _ _) as [[e r]|].
    + unfold bind. rewrite process_event_text_spec.
      destruct (frame_result json_loads e) as [[]|x]; simpl.
      * destruct (IH r (tock (emit (frame_batches json_loads e) w)))
          as [bs Hbs].
        eexists. rewrite Hbs at 1. simpl. by rewrite <- app_assoc.
      * by eexists.
    + exists []. destruct w; simpl; by rewrite app_nil_r.
Qed.

Lemma read_chunks_only_delivers stop chunks failure buffer :
  only_delivers (read_chunks json_loads stop chunks failure buffer).
Proof.
  revert buffer. induction chunks as [|c cs IH]; intros buffer w.
  - exists []. destruct failure, w; simpl; by rewrite app_nil_r.
  - rewrite read_chunks_eqn. destruct (stop (now w)).
    + exists []. destruct w; simpl; by rewrite app_nil_r.
    + destruct (drain_only_delivers (String.length (buffer +:+ c))
                  (buffer +:+ c) (tock w)) as [bs Hbs].
      unfold drain_all.
      destruct (drain _ _ _ _) as [w1 [b|x]]; simpl in Hbs.
      * destruct (IH b w1) as [bs' Hbs']. eexists. rewrite Hbs' at 1.
        rewrite Hbs. simpl. by rewrite <- app_assoc.
      * eexists. simpl. by rewrite Hbs at 1.
Qed.

(** X7. [_run] on a response never raises and always closes the response; it
    reports at most one error, a [StreamError], and none when the reading
    ended normally or the stop flag is set when it fails; what had been
    delivered and reported before stays. *)
Theorem run_always_closes (stop : nat -> bool) (r : Transport.response)
    (w : world) :
  let reading := read_events json_loads stop r w in
  let out := run_on json_loads stop (Ok r) w in
  out.2 = Ok tt /\
  response_closed out.1 = true /\
  (exists bs, delivered out.1 = delivered w ++ bs) /\
  (forall x, reading.2 = Raise x -> stop (now reading.1) = false ->
     reported out.1
     = reported w
       ++ [(now reading.1,
            mk_error StreamError ("SSE stream error: " +:+ exn_str x) None)]) /\
  (forall x, reading.2 = Raise x -> stop (now reading.1) = true ->
     reported out.1 = reported w) /\
  (reading.2 = Ok tt -> reported out.1 = reported w).
Proof.
  intros reading out. subst reading out. unfold run_on, read_events.
  destruct (read_chunks_only_delivers stop (Transport.chunks r)
              (Transport.stream_failure r) "" w) as [bs Hbs].
  destruct (read_chunks _ _ _ _ _ w) as [w1 [[]|x]]; simpl in *.
  - rewrite Hbs. simpl. split; [done|]. split; [done|].
    split; [by exists bs|]. by repeat split.
  - destruct (stop (now w1)) eqn:Hs; rewrite Hbs; simpl.
    + split; [done|]. split; [done|]. split; [by exists bs|].
      by repeat split.
    + split; [done|]. split; [done|]. split; [by exists bs|].
      split; [|by repeat split]. by intros x' [= <-] _.
Qed.

(** Valid update frames raise nothing and hand over their records. *)
Lemma decoded_frames fs css :
  Forall2 (decodes_to json_loads) fs css ->
  Forall (fun f => frame_result json_loads f = Ok tt) fs /\
  concat (map (frame_batches json_loads) fs) = css.
Proof.
  induction 1 as [|f cs fs css Hf _ [IH1 IH2]]; [done|].
  pose proof (decodes_to_processed json_loads f cs start_world Hf) as Hp.
  split.
  - constructor; [|done]. unfold frame_result. by rewrite Hp.
  - simpl. unfold frame_batches at 1. rewrite Hp. simpl. by rewrite IH2.
Qed.

Lemma fails_with_processed f x w :
  fails_with json_loads f x ->
  process_event_text json_loads f w = (w, Raise x).
Proof.
  intros [Hl Hx]. unfold process_event_text.
  destruct (data_lines f) as [|l ls] eqn:E; [done|].
  unfold data_str in Hx. rewrite E in Hx.
  destruct Hx as [[-> Hne]|(d & -> & Hd)].
  - destruct x; try done. by destruct (Hne msg).
  - unfold bind, lift. by rewrite Hd.
Qed.

(** X8. What is left on the wire after the last blank line is never decoded:
    the reading ends as if it had not arrived.  The records of the valid
    update frames before it are handed to the sink in the order of the
    wire. *)
Theorem unterminated_tail_dropped (fs : list string) (tail : string)
    (chunks chunks' : list string) (failure : option exn) (w : world) :
  Forall is_frame fs ->
  PyStr.split_once tail PyStr.nlnl = None ->
  whole chunks = on_wire fs +:+ tail ->
  whole chunks' = on_wire fs ->
  let with_tail :=
    run_on json_loads never (Ok (response_of chunks failure)) w in
  let without :=
    run_on json_loads never (Ok (response_of chunks' failure)) w in
  batches with_tail.1 = batches without.1 /\
  failures with_tail.1 = failures without.1 /\
  with_tail.2 = without.2 /\
  (Forall (fun f => frame_result json_loads f = Ok tt) fs ->
   batches with_tail.1
   = batches w ++ concat (map (frame_batches json_loads) fs)) /\
  (forall css,
     Forall2 (decodes_to json_loads) fs css ->
     batches with_tail.1 = batches w ++ css).
Proof.
  intros Hfs Htail Hc Hc' with_tail without. subst with_tail without.
  assert (Hsim : sim_out
            (read_events json_loads never (response_of chunks failure) w)
            (read_events json_loads never (response_of chunks' failure) w)).
  { eapply sim_out_trans; [by apply read_chunks_whole|].
    eapply sim_out_trans;
      [|apply (read_events_sim json_loads
                 (response_of [whole chunks'] failure)
                 (response_of chunks' failure)); simpl;
        [by rewrite str_app_empty_r|done]].
    unfold read_events. simpl Transport.chunks.
    simpl Transport.stream_failure.
    rewrite Hc, Hc', !read_chunks_eqn. simpl. rewrite !str_app_nil_l.
    rewrite <- (str_app_empty_r (on_wire fs)) at 2.
    rewrite !drain_all_on_wire by done.
    destruct (process_frames json_loads fs (tock w)) as [w1 [[]|x]];
      [|by split].
    rewrite !drain_all_eqn, Htail. simpl. by destruct failure. }
  destruct (run_on_sim json_loads _ _ w Hsim) as [(H1 & H2 & _) H3].
  assert (Hall : Forall (fun f => frame_result json_loads f = Ok tt) fs ->
            batches
              (run_on json_loads never (Ok (response_of chunks failure)) w).1
            = batches w ++ concat (map (frame_batches json_loads) fs)).
  { intros Hok. rewrite H1.
    assert (Hb : batches
              (read_events json_loads never (response_of chunks' failure) w).1
              = batches w ++ concat (map (frame_batches json_loads) fs)).
    { apply (read_frames_delivered json_loads fs ""); try done.
      by rewrite str_app_empty_r. }
    rewrite <- Hb. clear Hb. unfold run_on.
    destruct (read_events json_loads never (response_of chunks' failure) w)
      as [w1 [[]|x]]; done. }
  split; [done|]. split; [done|]. split; [done|]. split; [done|].
  intros css Hcss. destruct (decoded_frames fs css Hcss) as [Hok <-].
  by apply Hall.
Qed.

(** Where the reader's clock stands after frames that did not raise. *)
Lemma process_frames_now fs w w' :
  process_frames json_loads fs w = (w', Ok tt) ->
  now w' = now w + length fs.
Proof.
  revert w. induction fs as [|f fs IH]; intros w; simpl.
  - intros [= <-]. lia.
  - unfold bind. rewrite process_event_text_spec.
    destruct (frame_result json_loads f) as [[]|x]; [|done]. simpl.
    intros H%IH. rewrite H. simpl. lia.
Qed.

(** A frame whose processing raises ends the reading: what the frames
    before it and the frame itself had handed over is delivered, nothing
    after it is. *)
Lemma failing_frame_run (stop : nat -> bool) (fs : list string)
    (bad post : string) (x : exn) (failure : option exn) (w : world) :
  Forall is_frame fs -> is_frame bad ->
  Forall (fun f => frame_result json_loads f = Ok tt) fs ->
  frame_result json_loads bad = Raise x ->
  stop (now w) = false ->
  let text := on_wire (fs ++ [bad]) +:+ post in
  let out := run_on json_loads stop (Ok (response_of [text] failure)) w in
  let failed_at := S (now w) + length fs in
  out.2 = Ok tt /\ response_closed out.1 = true /\
  batches out.1
  = batches w ++ concat (map (frame_batches json_loads) fs)
    ++ frame_batches json_loads bad /\
  (stop failed_at = false ->
   reported out.1
   = reported w
     ++ [(failed_at,
          mk_error StreamError ("SSE stream error: " +:+ exn_str x) None)]) /\
  (stop failed_at = true -> reported out.1 = reported w).
Proof.
  intros Hfs Hbad Hok Hx Hstop text out failed_at.
  assert (Hread : exists w1,
            read_events json_loads stop (response_of [text] failure) w
            = (w1, Raise x) /\
            now w1 = failed_at /\
            batches w1
            = batches w ++ concat (map (frame_batches json_loads) fs)
              ++ frame_batches json_loads bad /\
            reported w1 = reported w).
  { unfold read_events. simpl Transport.chunks.
    simpl Transport.stream_failure.
    rewrite read_chunks_eqn, Hstop, str_app_nil_l. unfold text.
    rewrite on_wire_app, str_app_assoc, drain_all_on_wire by done.
    destruct (process_frames_ok json_loads fs (tock w) Hok)
      as (w' & Hrun & Hb & Hf).
    pose proof (process_frames_now _ _ _ Hrun) as Hnow.
    assert (Hgen : forall fs w0 w1,
              process_frames json_loads fs w0 = (w1, Ok tt) ->
              reported w1 = reported w0).
    { clear. induction fs as [|f fs IH]; intros w0 w1; simpl.
      - by intros [= <-].
      - unfold bind. rewrite process_event_text_spec.
        destruct (frame_result json_loads f) as [[]|x]; [|done]. simpl.
        by intros H%IH. }
    pose proof (Hgen _ _ _ Hrun) as Hrep. simpl in Hrep.
    rewrite Hrun. simpl on_wire. rewrite !str_app_assoc, str_app_nil_l.
    rewrite drain_all_eqn, (is_frame_split _ _ Hbad).
    rewrite process_event_text_spec, Hx.
    eexists. split; [done|]. simpl.
    split; [unfold failed_at; simpl in Hnow; lia|].
    split; [|done]. by rewrite batches_emit, Hb, <- app_assoc. }
  destruct Hread as (w1 & Hrun & Hnow & Hb & Hrep).
  subst out. unfold run_on. rewrite Hrun. rewrite Hnow.
  destruct (stop failed_at) eqn:Hs; simpl.
  - by repeat split.
  - repeat split; try done. by rewrite Hrep, Hnow.
Qed.

(** X9. A frame that raises ends the reading, be it that [json.loads]
    raises on its data text something other than [json.JSONDecodeError] or
    that its update map cannot be read: the records of the valid update
    frames before it are delivered, nothing of the frame and nothing after
    it is, one [StreamError] with the text of the exception is reported,
    unless the stop flag is set by then, and the response is closed. *)
Theorem failing_frame_ends_stream (stop : nat -> bool) (fs : list string)
    (css : list (list ValueChange)) (bad post : string) (x : exn)
    (failure : option exn) (w : world) :
  Forall is_frame fs -> is_frame bad ->
  Forall2 (decodes_to json_loads) fs css ->
  fails_with json_loads bad x ->
  stop (now w) = false ->
  let text := on_wire (fs ++ [bad]) +:+ post in
  let out := run_on json_loads stop (Ok (response_of [text] failure)) w in
  let failed_at := S (now w) + length fs in
  out.2 = Ok tt /\ response_closed out.1 = true /\
  batches out.1 = batches w ++ css /\
  (stop failed_at = false ->
   reported out.1
   = reported w
     ++ [(failed_at,
          mk_error StreamError ("SSE stream error: " +:+ exn_str x) None)]) /\
  (stop failed_at = true -> reported out.1 = reported w).
Proof.
  intros Hfs Hbad Hcss Hx Hstop text out failed_at.
  destruct (decoded_frames fs css Hcss) as [Hok Hb].
  pose proof (fails_with_processed bad x start_world Hx) as Hp.
  destruct (failing_frame_run stop fs bad post x failure w Hfs Hbad Hok)
    as (H1 & H2 & H3 & H4 & H5); [|done|].
  - unfold frame_result. by rewrite Hp.
  - split; [done|]. split; [done|]. split; [|by split].
    cbv zeta in H3. unfold out, text. rewrite H3, Hb.
    unfold frame_batches at 1. rewrite Hp. simpl. by rewrite app_nil_r.
Qed.

End ReaderMore.

Section StreamMore.
Variable json_loads : string -> result json.
Variable py_str : json -> string.
Variable network
  : list Transport.request -> Transport.request -> result Transport.response.

(** X10. A stream that cannot be opened is reported, not raised: [_run]
    hands one [StreamError] to the error sink, delivers nothing, closes
    nothing and returns.  This is so on a transport that is not open,
    where nothing is sent, and when the server answers with a status of 400
    or more. *)
Theorem unopened_stream_reported (stop : nat -> bool) (sid : string)
    (s : Transport.state) :
  let path := stream_path sid in
  let opened := Transport.stream_get json_loads py_str network s path in
  let out := SSEStream.run json_loads py_str network stop sid s in
  (forall e, opened.2 = Raise e ->
     out = (opened.1,
            (mk_world 0 []
               [(0, mk_error StreamError
                      ("Failed to open SSE stream: " +:+ exn_str e) None)]
               false,
             Ok tt))) /\
  (Transport.is_open (Transport.this s) = false ->
   opened = (s, Raise Connection.not_connected)) /\
  (forall r,
     Transport.is_open (Transport.this s) = true ->
     network (Transport.sent (Transport.net s))
             (Transport.mk_request "GET" path None None true) = Ok r ->
     (400 <= Transport.status_code r)%Z ->
     exists e, opened.2 = Raise e).
Proof.
  intros path opened out. subst out opened path. split; [|split].
  - intros e He. unfold SSEStream.run. rewrite He. done.
  - intros Hc. unfold Transport.stream_get, Transport.ensure_open.
    unfold Transport.is_open in Hc.
    by destruct (Transport.client (Transport.this s)).
  - intros r Ho Hn Hs. unfold Transport.stream_get, Transport.ensure_open.
    unfold Transport.is_open in Ho.
    destruct (Transport.client (Transport.this s)); [|done].
    unfold Transport.send. rewrite Hn. simpl.
    unfold Transport.check_status.
    destruct (Z.ltb_spec (Transport.status_code r) 400); [lia|].
    destruct (Transport.error_message _ _ _); simpl; by eexists.
Qed.

(** X11. A frame block without any [data:] line (a comment, an [event:] or [id:]
    line alone) does nothing: [json.loads] is not even called, so that
    whatever it would do the frame is passed over and the reading goes
    on. *)
Theorem frame_without_data_ignored (event_text : string) :
  marked_lines event_text = [] ->
  (forall w, process_event_text json_loads event_text w = (w, Ok tt)) /\
  (forall pre post chunks chunks' failure w,
     Forall is_frame pre -> is_frame event_text ->
     whole chunks = on_wire pre +:+ event_text +:+ PyStr.nlnl +:+ post ->
     whole chunks' = on_wire pre +:+ post ->
     let with_it :=
       run_on json_loads never (Ok (response_of chunks failure)) w in
     let without :=
       run_on json_loads never (Ok (response_of chunks' failure)) w in
     batches with_it.1 = batches without.1 /\
     failures with_it.1 = failures without.1 /\
     with_it.2 = without.2).
Proof.
  intros Hm.
  assert (Hsilent : forall w,
            process_event_text json_loads event_text w = (w, Ok tt)).
  { intros w. unfold process_event_text. by rewrite data_lines_eq, Hm. }
  split; [done|].
  intros pre post chunks chunks' failure w Hpre Hf Hc Hc'.
  destruct (read_silent_frame json_loads event_text pre post chunks chunks'
              failure w) as [(H1 & H2 & _) H3]; done.
Qed.

Lemma rmap_app {A B} (f : A -> result B) xs ys :
  rmap f (xs ++ ys)
  = match rmap f xs with
    | Ok us => match rmap f ys with
               | Ok vs => Ok (us ++ vs)
               | Raise e => Raise e
               end
    | Raise e => Raise e
    end.
Proof.
  induction xs as [|x xs IH]; simpl.
  - by destruct (rmap f ys).
  - destruct (f x); [|done]. rewrite IH.
    destruct (rmap f xs); [|done]. by destruct (rmap f ys).
Qed.

(** X12. An update map gives one value-change record per key, in the order of
    the keys, or none at all: a value that is not an object, or whose
    [data] cannot be read, makes the whole map raise. *)
Theorem changes_follow_keys (event_data : list (string * json)) :
  (forall changes,
     from_stream_event (JObj event_data) = Ok changes ->
     vc_element_id <$> changes = Dict.keys event_data /\
     length changes = length event_data) /\
  (forall k v,
     (k, v) ∈ event_data -> (forall vd, v <> JObj vd) ->
     exists e, from_stream_event (JObj event_data) = Raise e) /\
  (Forall (fun kv => exists vd vqts, kv.2 = JObj vd /\
                       parse_vqts vd = Ok vqts) event_data ->
   exists changes, from_stream_event (JObj event_data) = Ok changes).
Proof.
  split; [|split].
  - intros changes H. simpl in H. apply rmap_Forall2 in H.
    induction H as [|[k v] vc d cs Hvc _ [IH1 IH2]]; [done|].
    simpl in Hvc. unfold Dict.keys in *. rewrite !fmap_cons. simpl.
    rewrite IH1, IH2. split; [|done]. f_equal.
    destruct v as [| | | | | |vd]; try done. simpl in Hvc.
    unfold rbind in Hvc. destruct (parse_vqts vd); by simplify_eq.
  - intros k v Hin Hv. simpl.
    apply list_elem_of_split in Hin as (d1 & d2 & ->).
    rewrite rmap_app. destruct (rmap _ d1); [|by eexists].
    simpl. destruct v as [| | | | | |vd]; try by eexists.
    by destruct (Hv vd).
  - intros H. simpl. apply rmap_total.
    eapply Forall_impl; [exact H|].
    intros [k v] (vd & vqts & -> & Hq). simpl. unfold rbind.
    rewrite Hq. by eexists.
Qed.


End StreamMore.

Lemma unterminated_tail_dropped_witness :
  batches (run_on JsonRef.loads never
             (Ok (response_of [JsonRef.txt "data: {'a': {}}||data: {'b'"]
                              None))
             start_world).1
  = batches (run_on JsonRef.loads never
               (Ok (response_of [JsonRef.txt "data: {'a': {}}||"] None))
               start_world).1.
Proof.
  apply (proj1 (unterminated_tail_dropped JsonRef.loads
                  [JsonRef.txt "data: {'a': {}}"] (JsonRef.txt "data: {'b'")
                  [JsonRef.txt "data: {'a': {}}||data: {'b'"]
                  [JsonRef.txt "data: {'a': {}}||"] None start_world
                  ltac:(repeat constructor) eq_refl eq_refl eq_refl)).
Defined.

Lemma failing_frame_ends_stream_witness :
  batches (run_on JsonRef.loads never
             (Ok (response_of
                    [on_wire ([JsonRef.txt "data: {'a': {}}"]
                              ++ [JsonRef.txt "data: {'b': 7}"])
                     +:+ JsonRef.txt "data: {'c': {}}||"] None))
             start_world).1
  = batches start_world ++ [[mk_ValueChange "a" [] []]].
Proof.
  assert (Hx : fails_with JsonRef.loads (JsonRef.txt "data: {'b': 7}")
                 (AttributeError "'int' object has no attribute 'get'")).
  { split; [intros H; vm_compute in H; discriminate H|].
    right. exists [("b", JInt 7)]. split; reflexivity. }
  apply (proj1 (proj2 (proj2
           (failing_frame_ends_stream JsonRef.loads never
              [JsonRef.txt "data: {'a': {}}"] [[mk_ValueChange "a" [] []]]
              (JsonRef.txt "data: {'b': 7}")
              (JsonRef.txt "data: {'c': {}}||")
              (AttributeError "'int' object has no attribute 'get'")
              None start_world
              ltac:(repeat constructor) eq_refl
              ltac:(frames_decode)
              Hx eq_refl)))).
Defined.

Lemma frame_without_data_ignored_witness :
  process_event_text JsonRef.loads ": keep-alive" start_world
  = (start_world, Ok tt).
Proof.
  apply (proj1 (frame_without_data_ignored JsonRef.loads ": keep-alive"
                  eq_refl)).
Defined.


(** ** The parsed records: members and triples *)

Lemma children_loop_parsed items : forall acc children,
  children_loop items acc = Ok children ->
  forall k v, (k, v) ∈ items -> k <> "data" ->
    exists c, from_response k v = Ok c.
Proof.
  induction items as [|[k0 v0] items IH]; intros acc children Hloop k v Hin Hk.
  - by apply elem_of_nil in Hin.
  - simpl in Hloop. apply elem_of_cons in Hin as [[= -> ->]|Hin].
    + destruct (String.eqb_spec k0 "data"); [done|].
      destruct (from_response k0 v0); [by eexists|done].
    + destruct (String.eqb k0 "data"); [by eapply IH|].
      destruct (from_response k0 v0); [by eapply IH|done].
Qed.

Lemma child_data_get (vd : list (string * json)) k v :
  Dict.wf vd -> (k, v) ∈ vd -> k <> "data" ->
  Dict.get (child_data vd) k = Some (PyJson v).
Proof.
  intros Hwf Hin Hk. rewrite child_data_spec by done.
  apply dict_get_elem.
  - replace (Dict.keys ((fun kv : string * json => (kv.1, PyJson kv.2))
                        <$> child_items vd))
      with (Dict.keys (child_items vd)).
    + rewrite child_items_keys. by apply NoDup_filter.
    + unfold Dict.keys. rewrite <- list_fmap_compose. by apply list_fmap_ext.
  - apply list_elem_of_fmap. exists (k, v). split; [done|].
    apply list_elem_of_filter. by split.
Qed.

(** X14. A snapshot payload with a member other than [data] that is not an
    object (a unit, a label) cannot be parsed by
    [LastKnownValue.from_response], which raises; the value-change record
    of a stream event takes the same payload and keeps the member as it
    is. *)
Theorem scalar_member_rejected (eid : string) (d : list (string * json))
    (k : string) (v : json) :
  (k, v) ∈ d -> k <> "data" -> (forall vd, v <> JObj vd) ->
  (exists e, from_response eid (JObj d) = Raise e) /\
  (forall vqts, Dict.wf d -> parse_vqts d = Ok vqts ->
     exists vc, change_of_item eid (JObj d) = Ok vc /\
                Dict.get (vc_children vc) k = Some (PyJson v)).
Proof.
  intros Hin Hk Hv. split.
  - rewrite from_response_eqn.
    destruct (parse_vqts d) as [vqts|e]; [|by eexists].
    destruct (children_loop d []) as [cs|e] eqn:E; [|by eexists].
    destruct (children_loop_parsed _ _ _ E k v Hin Hk) as [c Hc].
    destruct v; try done. by destruct (Hv fields).
  - intros vqts Hwf Hq. simpl. unfold rbind. rewrite Hq.
    eexists. split; [done|]. simpl. by apply child_data_get.
Qed.

(** X15. The triples of a snapshot follow its [data] member: none when the
    member is missing, one per item of the array, in order, each with the
    item's [value], [quality] and [timestamp] or, where the item has none,
    [None] and the empty string; a [data] that is a number, a boolean or
    null raises a [TypeError]. *)
Theorem vqts_follow_data (d : list (string * json)) :
  (Dict.get d "data" = None -> parse_vqts d = Ok []) /\
  (forall vs vqts,
     Dict.get d "data" = Some (JArr vs) -> parse_vqts d = Ok vqts ->
     Forall2 (fun v q =>
                exists o, v = JObj o /\
                  value q = Dict.get_default o "value" JNull /\
                  quality q = Dict.get_default o "quality" (JStr "") /\
                  timestamp q = Dict.get_default o "timestamp" (JStr ""))
             vs vqts) /\
  (forall vs,
     Dict.get d "data" = Some (JArr vs) ->
     Forall (fun v => exists o, v = JObj o) vs ->
     exists vqts, parse_vqts d = Ok vqts /\ length vqts = length vs) /\
  (forall v,
     Dict.get d "data" = Some v ->
     match v with
     | JNull | JBool _ | JInt _ | JFloat _ => True
     | _ => False
     end ->
     exists m, parse_vqts d = Raise (TypeError m)).
Proof.
  unfold parse_vqts, Dict.get_default. split; [|split; [|split]].
  - by intros ->.
  - intros vs vqts -> H. simpl in H. apply rmap_Forall2 in H.
    eapply Forall2_impl; [exact H|].
    intros v q Hq. destruct v as [| | | | | |o]; try done.
    simpl in Hq. injection Hq as <-. by exists o.
  - intros vs -> Hvs. simpl.
    destruct (rmap_total VQT_from_dict vs) as [vqts Hq].
    + eapply Forall_impl; [exact Hvs|]. intros v [o ->]. by eexists.
    + exists vqts. split; [done|].
      apply rmap_Forall2 in Hq. symmetry. by eapply Forall2_length.
  - intros v -> Hv. destruct v; try done; by eexists.
Qed.

Lemma scalar_member_rejected_witness :
  exists e,
    from_response "sensor-1"
      (JObj [("data", JArr []); ("unit", JStr "degC")])
    = Raise e.
Proof.
  apply (proj1 (scalar_member_rejected "sensor-1"
                  [("data", JArr []); ("unit", JStr "degC")]
                  "unit" (JStr "degC")
                  ltac:(repeat constructor) ltac:(discriminate)
                  ltac:(discriminate))).
Defined.

(** ** The registry: readers, threads and what stopping leaves *)

Import SSEStream SubscriptionManager Registry Threads.

Section RegistryMore.
Variable alive : nat -> bool.

Lemma stop_all_lookup (m : manager) a :
  objects (stop_all m) !! a = objects m !! a \/
  objects (stop_all m) !! a = stop <$> objects m !! a.
Proof.
  destruct (stop_all_objects (streams m) (objects m) a) as [[H _]|[H _]];
    [by left|by right].
Qed.





Lemma registry_inv_step m c : registry_inv m -> registry_inv (step alive m c).
Proof.
  destruct c; simpl.
  - apply registry_inv_add.
  - apply registry_inv_remove.
  - apply registry_inv_stop_all.
Qed.


Lemma unchanged_or_stopped m c a :
  match c with Add _ => False | _ => True end ->
  objects (step alive m c) !! a = objects m !! a \/
  objects (step alive m c) !! a = stop <$> objects m !! a.
Proof.
  destruct c as [sid|sid|]; [done| |]; intros _; simpl.
  - unfold remove. destruct (streams m !! sid) as [a'|]; [|by left].
    simpl. destruct (decide (a' = a)) as [->|Hne].
    + right. apply list_lookup_alter_eq.
    + left. by apply list_lookup_alter_ne.
  - apply stop_all_lookup.
Qed.

Lemma threads_distinct_init : threads_distinct init.
Proof.
  split; [|split].
  - by intros [|a].
  - by intros [|a].
  - by intros [|a].
Qed.

Lemma threads_distinct_step m c :
  threads_distinct m -> threads_distinct (step alive m c).
Proof.
  intros (T1 & T2 & T3).
  destruct c as [sid|sid|].
  - simpl. unfold add. destruct (streams m !! sid); [done|].
    unfold start, is_running. simpl. split; [|split]; simpl.
    + intros a r [H|[_ H]]%lookup_app_Some Hl; [by eapply T1|].
      destruct (a - _); [|done]. simpl in H. by simplify_eq.
    + intros a r t [H|[_ H]]%lookup_app_Some Ht.
      * specialize (T2 _ _ _ H Ht). lia.
      * destruct (a - _); [|done]. simpl in H. simplify_eq. simpl in Ht.
        simplify_eq. lia.
    + intros a b r r' t [Ha|[Hla Ha]]%lookup_app_Some
        [Hb|[Hlb Hb]]%lookup_app_Some Ht Ht'.
      * by eapply T3.
      * destruct (b - _); [|done]. simpl in Hb. simplify_eq. simpl in Ht'.
        simplify_eq. specialize (T2 _ _ _ Ha Ht). lia.
      * destruct (a - _); [|done]. simpl in Ha. simplify_eq. simpl in Ht.
        simplify_eq. specialize (T2 _ _ _ Hb Ht'). lia.
      * destruct (a - _) eqn:Ea; [|done]. destruct (b - _) eqn:Eb; [|done].
        lia.
  - assert (Hth : threads (step alive m (Remove sid)) = threads m).
    { simpl. unfold remove. by destruct (streams m !! sid). }
    pose proof (unchanged_or_stopped m (Remove sid)) as Hobj.
    revert Hth Hobj. generalize (step alive m (Remove sid)). intros m' Hth Hobj.
    split; [|split].
    + intros a r Hr Hl. destruct (Hobj a I) as [H|H]; rewrite Hr in H.
      * by eapply T1.
      * symmetry in H. apply fmap_Some in H as (r0 & _ & ->). done.
    + intros a r t Hr Ht. rewrite Hth.
      destruct (Hobj a I) as [H|H]; rewrite Hr in H.
      * by eapply T2.
      * symmetry in H. apply fmap_Some in H as (r0 & _ & ->). done.
    + intros a b r r' t Hr Hr' Ht Ht'.
      destruct (Hobj a I) as [H|H]; rewrite Hr in H;
        [|symmetry in H; apply fmap_Some in H as (r0 & _ & ->); done].
      destruct (Hobj b I) as [H'|H']; rewrite Hr' in H';
        [|symmetry in H'; apply fmap_Some in H' as (r0 & _ & ->); done].
      by eapply T3.
  - assert (Hth : threads (step alive m StopAll) = threads m) by done.
    pose proof (unchanged_or_stopped m StopAll) as Hobj.
    revert Hth Hobj. generalize (step alive m StopAll). intros m' Hth Hobj.
    split; [|split].
    + intros a r Hr Hl. destruct (Hobj a I) as [H|H]; rewrite Hr in H.
      * by eapply T1.
      * symmetry in H. apply fmap_Some in H as (r0 & _ & ->). done.
    + intros a r t Hr Ht. rewrite Hth.
      destruct (Hobj a I) as [H|H]; rewrite Hr in H.
      * by eapply T2.
      * symmetry in H. apply fmap_Some in H as (r0 & _ & ->). done.
    + intros a b r r' t Hr Hr' Ht Ht'.
      destruct (Hobj a I) as [H|H]; rewrite Hr in H;
        [|symmetry in H; apply fmap_Some in H as (r0 & _ & ->); done].
      destruct (Hobj b I) as [H'|H']; rewrite Hr' in H';
        [|symmetry in H'; apply fmap_Some in H' as (r0 & _ & ->); done].
      by eapply T3.
Qed.

Lemma threads_distinct_run calls : threads_distinct (run alive calls).
Proof.
  unfold run. generalize threads_distinct_init. generalize init.
  induction calls as [|c calls IH]; intros m Hm; [done|].
  simpl. by apply IH, threads_distinct_step.
Qed.



(** X19. Removing an id and adding it again does not start the old reader: the
    manager makes a new reader, at a new address and on a thread no reader
    had before; the old one stays stopped. *)
Theorem readd_makes_new_reader (calls : list call) (sid : string) (a : nat) :
  let m := run alive calls in
  streams m !! sid = Some a ->
  let m' := add alive (remove m sid) sid in
  let a' := length (objects m) in
  streams m' !! sid = Some a' /\ a < a' /\
  objects m' !! a = stop <$> objects m !! a /\
  objects m' !! a' = Some (mk_reader sid false (Some (threads m))) /\
  (forall b r, objects m !! b = Some r -> thread r <> Some (threads m)) /\
  live_readers m' sid = [a'].
Proof.
  intros m Ha m' a'.
  pose proof (registry_inv_run alive calls) as Hinv. fold m in Hinv.
  destruct (threads_distinct_run calls) as (_ & T2 & _). fold m in T2.
  assert (Hm' : m' = mk_manager
                       (<[sid := a']> (base.delete sid (streams m)))
                       (alter stop a (objects m)
                        ++ [mk_reader sid false (Some (threads m))])
                       (S (threads m))).
  { subst m' a'. unfold remove. rewrite Ha. unfold add. simpl.
    rewrite lookup_delete_eq. unfold start, is_running. simpl.
    by rewrite length_alter. }
  destruct Hinv as [I1 I2].
  destruct (I1 _ _ Ha) as (r & Hr & _ & _).
  pose proof (lookup_lt_Some _ _ _ Hr) as Hlt.
  assert (Hs : streams m' !! sid = Some a')
    by (rewrite Hm'; simpl; apply lookup_insert_eq).
  split; [done|]. split; [done|]. split; [|split; [|split]].
  - rewrite Hm'. simpl. rewrite lookup_app_l by (by rewrite length_alter).
    apply list_lookup_alter_eq.
  - rewrite Hm'. simpl. rewrite lookup_app_r by (by rewrite length_alter).
    rewrite length_alter. fold a'. by rewrite Nat.sub_diag.
  - intros b r' Hr' Ht. specialize (T2 _ _ _ Hr' Ht). lia.
  - rewrite live_readers_inv; [by rewrite Hs|].
    subst m'. apply registry_inv_add, registry_inv_remove. by split.
Qed.

(** X20. [add] and [remove] on one id leave every other id as it was: its
    entry, whether it is streaming, and its live reader. *)
Theorem other_subscriptions_untouched (calls : list call)
    (sid sid' : string) (c : call) :
  sid <> sid' -> c = Add sid \/ c = Remove sid ->
  let m := run alive calls in
  streams (step alive m c) !! sid' = streams m !! sid' /\
  is_streaming alive (step alive m c) sid' = is_streaming alive m sid' /\
  live_readers (step alive m c) sid' = live_readers m sid'.
Proof.
  intros Hne Hc m.
  pose proof (registry_inv_run alive calls) as Hinv. fold m in Hinv.
  assert (Hs : streams (step alive m c) !! sid' = streams m !! sid').
  { destruct Hc as [-> | ->]; simpl.
    - unfold add. destruct (streams m !! sid); [done|].
      simpl. by apply lookup_insert_ne.
    - unfold remove. destruct (streams m !! sid); [|done].
      simpl. by apply lookup_delete_ne. }
  split; [done|]. split.
  - unfold is_streaming. rewrite Hs.
    destruct (streams m !! sid') as [a'|] eqn:E; [|done].
    destruct Hinv as [I1 _].
    destruct (I1 _ _ E) as (r & Hr & Hsid & _).
    destruct Hc as [-> | ->]; simpl.
    + unfold add. destruct (streams m !! sid); [done|].
      simpl. by rewrite (lookup_app_l_Some _ _ _ _ Hr), Hr.
    + unfold remove. destruct (streams m !! sid) as [a|] eqn:E'; [|done].
      simpl. rewrite list_lookup_alter_ne; [done|]. intros ->.
      destruct (I1 _ _ E') as (r0 & Hr0 & Hsid0 & _). congruence.
  - rewrite !live_readers_inv; [by rewrite Hs|done|].
    by apply registry_inv_step.
Qed.

End RegistryMore.


Lemma readd_makes_new_reader_witness :
  streams (add (fun _ => true)
             (remove (SubscriptionManager.run (fun _ => true) [Add "sub-1"])
                     "sub-1")
             "sub-1") !! "sub-1"
  = Some 1.
Proof.
  apply (proj1 (readd_makes_new_reader (fun _ => true) [Add "sub-1"]
                  "sub-1" 0 eq_refl)).
Defined.

Lemma other_subscriptions_untouched_witness :
  is_streaming (fun _ => true)
    (SubscriptionManager.step (fun _ => true)
       (SubscriptionManager.run (fun _ => true) [Add "sub-1"])
       (Remove "sub-2"))
    "sub-1"
  = is_streaming (fun _ => true)
      (SubscriptionManager.run (fun _ => true) [Add "sub-1"]) "sub-1".
Proof.
  apply (proj1 (proj2 (other_subscriptions_untouched (fun _ => true)
                         [Add "sub-1"] "sub-2" "sub-1" (Remove "sub-2")
                         ltac:(discriminate) (or_intror eq_refl)))).
Defined.

(** ** The client: connection lifecycle, stream control and dispatch *)

Import Dispatch.

Section ClientFacts.
Variable json_loads : string -> result json.
Variable py_str : json -> string.
Variable network : list request -> request -> result response.
Variable alive : nat -> bool.
Variable cb : Client.callbacks.


Lemma open_outcome s :
  is_open (this (open json_loads py_str network s).1)
  = match (open json_loads py_str network s).2 with
    | Ok _ => true
    | Raise _ => false
    end.
Proof.
  unfold open. destruct (client (this s)) as [c|] eqn:Hc.
  - simpl. unfold is_open. by rewrite Hc.
  - unfold get, ensure_open. simpl.
    destruct (request_ _ _ _ _ _ _ _ _) as [s2 [v|x]] eqn:E; simpl.
    + unfold is_open. by rewrite (request_keeps_client _ _ _ _ _ _ _ _ _ _ E).
    + unfold close, is_open.
      rewrite (request_keeps_client _ _ _ _ _ _ _ _ _ _ E). done.
Qed.

Lemma open_on_open s :
  is_open (this s) = true -> open json_loads py_str network s = (s, Ok tt).
Proof. unfold open, is_open. by destruct (client (this s)). Qed.

Lemma delete_on_closed s p :
  is_open (this s) = false ->
  delete json_loads py_str network s p = (s, Raise not_connected).
Proof.
  intros H%is_open_client. unfold delete, ensure_open. by rewrite H.
Qed.

Lemma close_closes s : is_open (this (close s)) = false.
Proof.
  unfold close, is_open. by destruct (client (this s)) eqn:E; [|rewrite E].
Qed.

Lemma client_inv_init url auth : client_inv alive (Client.init url auth).
Proof. split; [split; [done|by intros [m Hm]]|done]. Qed.

Lemma delete_keeps_this s p :
  this (delete json_loads py_str network s p).1 = this s.
Proof.
  unfold delete, ensure_open. destruct (client (this s)); [|done].
  by rewrite request_state.
Qed.

Lemma client_inv_stop_stream c sid :
  client_inv alive c -> client_inv alive (Client.stop_stream c sid).
Proof.
  intros Hinv. pose proof Hinv as [Hc Hm]. unfold Client.stop_stream.
  destruct (Client.sub_manager c) as [m|] eqn:Em; [|exact Hinv].
  split; simpl.
  - unfold Client.is_connected in *. simpl. rewrite Hc. by split.
  - intros m' [= <-]. destruct (Hm m eq_refl) as [calls ->].
    exists (calls ++ [Remove sid]). unfold run. by rewrite fold_left_app.
Qed.

Lemma client_inv_step c k :
  client_inv alive c ->
  client_inv alive (Client.step json_loads py_str network alive cb c k).
Proof.
  intros Hinv. pose proof Hinv as [Hc Hm].
  destruct k as [| |sid|sid|sid]; simpl.
  - unfold Client.connect.
    destruct (is_open (this (Client.transport c))) eqn:E.
    + rewrite open_on_open by done.
      destruct (Client.on_connect cb); simpl; (split; [by split|]);
        intros m [= <-]; by exists [].
    + pose proof (open_outcome (Client.transport c)) as Ho.
      destruct (open _ _ _ _) as [t [[]|e]]; simpl in Ho.
      * destruct (Client.on_connect cb); simpl.
        all: (split; [unfold Client.is_connected; simpl; rewrite Ho;
                      split; [by eexists|done]|]);
          intros m [= <-]; by exists [].
      * split; simpl; [|done]. unfold Client.is_connected. simpl. rewrite Ho.
        split; [done|]. intros Hs. apply Hc in Hs.
        unfold Client.is_connected in Hs. congruence.
  - unfold Client.disconnect.
    destruct (Client.on_disconnect cb); simpl;
      (split; [|done]); unfold Client.is_connected; simpl;
      rewrite close_closes; (split; [done|by intros [m Hm']]).
  - unfold Client.start_stream.
    destruct (Client.sub_manager c) as [m|] eqn:Em; [|exact Hinv].
    split; simpl.
    + unfold Client.is_connected in *. simpl. rewrite Hc. by split.
    + intros m' [= <-]. destruct (Hm m eq_refl) as [calls ->].
      exists (calls ++ [Add sid]). unfold run. by rewrite fold_left_app.
  - by apply client_inv_stop_stream.
  - pose proof (client_inv_stop_stream c sid Hinv) as [Hc1 Hm1].
    unfold Client.unsubscribe.
    pose proof (delete_keeps_this (Client.transport (Client.stop_stream c sid))
                  ("/subscriptions/" +:+ sid)) as Ht.
    destruct (delete _ _ _ _ _) as [t [v|e]]; simpl in Ht;
      (split; [|done]); unfold Client.is_connected in *; simpl;
      by rewrite Ht.
Qed.

Lemma client_inv_run url auth ks :
  client_inv alive
    (Client.run json_loads py_str network alive cb url auth ks).
Proof.
  unfold Client.run. generalize (client_inv_init url auth).
  generalize (Client.init url auth).
  induction ks as [|k ks IH]; intros c Hc; [done|].
  simpl. by apply IH, client_inv_step.
Qed.


Lemma retired_grows c ks :
  exists rest,
    Client.retired
      (fold_left (Client.step json_loads py_str network alive cb) ks c)
    = Client.retired c ++ rest.
Proof.
  revert c. induction ks as [|k ks IH]; intros c.
  - exists []. by rewrite app_nil_r.
  - simpl.
    destruct (IH (Client.step json_loads py_str network alive cb c k))
      as [rest ->].
    assert (Hk : exists r1,
              Client.retired
                (Client.step json_loads py_str network alive cb c k)
                            = Client.retired c ++ r1).
    { destruct k as [| |sid|sid|sid]; simpl.
      - unfold Client.connect.
        destruct (open _ _ _ _) as [t [[]|e]]; simpl;
          [|exists []; by rewrite app_nil_r].
        destruct (Client.on_connect cb); simpl;
          (destruct (Client.sub_manager c) as [old|];
           [by exists [old]|exists []; by rewrite app_nil_r]).
      - unfold Client.disconnect.
        destruct (Client.on_disconnect cb); simpl;
          (destruct (Client.sub_manager c) as [old|];
           [by eexists [_]|exists []; by rewrite app_nil_r]).
      - unfold Client.start_stream. exists []. rewrite app_nil_r.
        by destruct (Client.sub_manager c).
      - unfold Client.stop_stream. exists []. rewrite app_nil_r.
        by destruct (Client.sub_manager c).
      - unfold Client.unsubscribe, Client.stop_stream. exists [].
        rewrite app_nil_r.
        destruct (delete _ _ _ _ _) as [t [v|e]]; simpl;
          by destruct (Client.sub_manager c). }
    destruct Hk as [r1 ->]. exists (r1 ++ rest). by rewrite app_assoc.
Qed.

(** X21. Whatever calls are made on a client, it is connected exactly when it
    has a manager, and its manager has been driven from an empty one by
    [add] and [remove] alone: a subscription id has at most one live reader
    in it, the one filed under the id. *)
Theorem connected_iff_manager (url : string)
    (auth : option (string * string)) (ks : list Client.call) :
  let c := Client.run json_loads py_str network alive cb url auth ks in
  (Client.is_connected c = true <-> is_Some (Client.sub_manager c)) /\
  (forall m, Client.sub_manager c = Some m ->
     (exists calls, m = run alive calls) /\
     forall sid,
       live_readers m sid
       = match streams m !! sid with Some a => [a] | None => [] end).
Proof.
  intros c. destruct (client_inv_run url auth ks) as [Hc Hm].
  split; [done|]. intros m Hs. split; [by apply Hm|].
  intros sid. destruct (Hm m Hs) as [calls ->].
  apply live_readers_inv, registry_inv_run.
Qed.

(** X22. [connect] when the transport cannot be opened raises what [open]
    raised and leaves the client disconnected, with the manager it had and
    without calling [on_connect].  When the transport opens - or is open
    already - the client is connected and has a new, empty manager, also
    when [on_connect] raises: what the callback raises comes out of
    [connect] after the client is connected. *)
Theorem connect_outcomes (c : Client.client) :
  let opened := open json_loads py_str network (Client.transport c) in
  let r := Client.connect json_loads py_str network cb c in
  (forall e, opened.2 = Raise e ->
     r.2 = Raise e /\ Client.is_connected r.1 = false /\
     Client.sub_manager r.1 = Client.sub_manager c /\
     Client.retired r.1 = Client.retired c /\
     Client.events r.1 = Client.events c) /\
  (opened.2 = Ok tt ->
     Client.is_connected r.1 = true /\
     Client.sub_manager r.1 = Some init /\
     r.2 = default (Ok tt) (Client.on_connect cb) /\
     Client.events r.1
     = Client.events c ++ match Client.on_connect cb with
                          | Some _ => [Client.CalledOnConnect]
                          | None => []
                          end).
Proof.
  intros opened r. subst opened r. unfold Client.connect.
  pose proof (open_outcome (Client.transport c)) as Ho.
  destruct (open _ _ _ _) as [t [[]|x]]; simpl in *.
  - split; [done|]. intros _.
    destruct (Client.on_connect cb); simpl; rewrite ?app_nil_r; done.
  - split; [|done]. by intros e [= <-].
Qed.


(** X24. [connect] on a connected client sends nothing and replaces the manager
    by a new, empty one without stopping the streams of the old one: the
    old manager is left as it was, and no later call on the client changes
    it. *)
Theorem second_connect_keeps_old_streams (url : string)
    (auth : option (string * string)) (ks more : list Client.call)
    (m : manager) :
  let c := Client.run json_loads py_str network alive cb url auth ks in
  Client.sub_manager c = Some m ->
  let c' := (Client.connect json_loads py_str network cb c).1 in
  Client.transport c' = Client.transport c /\
  Client.sub_manager c' = Some init /\
  Client.retired c' = Client.retired c ++ [m] /\
  exists rest,
    Client.retired
      (fold_left (Client.step json_loads py_str network alive cb) more c')
    = Client.retired c ++ [m] ++ rest.
Proof.
  intros c Hs c'. destruct (client_inv_run url auth ks) as [Hc _].
  fold c in Hc.
  assert (Ho : is_open (this (Client.transport c)) = true)
    by (apply Hc; by rewrite Hs).
  assert (Hc' : Client.transport c' = Client.transport c /\
                Client.sub_manager c' = Some init /\
                Client.retired c' = Client.retired c ++ [m]).
  { subst c'. unfold Client.connect. rewrite (open_on_open _ Ho), Hs.
    by destruct (Client.on_connect cb). }
  destruct Hc' as (H1 & H2 & H3). split; [done|]. split; [done|].
  split; [done|]. destruct (retired_grows c' more) as [rest ->].
  exists rest. by rewrite H3, app_assoc.
Qed.

(** X25. On a client that is not connected, whatever calls came before,
    [start_stream] and [stop_stream] do nothing and raise nothing, and
    [unsubscribe] raises the [ConnectionError] of a closed transport
    without a change to the client. *)
Theorem stream_control_needs_connection (url : string)
    (auth : option (string * string)) (ks : list Client.call)
    (sid : string) :
  let c := Client.run json_loads py_str network alive cb url auth ks in
  Client.is_connected c = false ->
  Client.start_stream alive c sid = c /\
  Client.stop_stream c sid = c /\
  Client.unsubscribe json_loads py_str network c sid
  = (c, Raise not_connected).
Proof.
  intros c Hn. destruct (client_inv_run url auth ks) as [Hc _]. fold c in Hc.
  assert (Hs : Client.sub_manager c = None).
  { destruct (Client.sub_manager c) as [m|]; [|done].
    assert (Client.is_connected c = true) by (by apply Hc). congruence. }
  unfold Client.unsubscribe, Client.start_stream, Client.stop_stream.
  rewrite Hs. split; [done|]. split; [done|].
  rewrite delete_on_closed by done. by destruct c.
Qed.


Lemma dispatch_log f changes log :
  exists added,
    Client.dispatch f changes log = log ++ added /\
    changes_called added = changes /\
    exceptions_logged added
    = (fun _ => "Error in on_value_change callback")
        <$> filter (fun change => raises (f change) = true) changes.
Proof.
  revert log. induction changes as [|change rest IH]; intros log.
  - exists []. by rewrite app_nil_r.
  - simpl. rewrite filter_cons. destruct (f change) as [[]|e] eqn:E.
    + destruct (IH (log ++ [Client.CalledOnValueChange change]))
        as (added & -> & Hc & Hx).
      exists (Client.CalledOnValueChange change :: added).
      rewrite <- app_assoc. split; [done|]. simpl. rewrite Hc.
      split; [done|]. exact Hx.
    + destruct (IH (log ++ [Client.CalledOnValueChange change;
                            Client.LoggedException
                              "Error in on_value_change callback"]))
        as (added & -> & Hc & Hx).
      exists (Client.CalledOnValueChange change
              :: Client.LoggedException "Error in on_value_change callback"
              :: added).
      rewrite <- app_assoc. split; [done|]. simpl. rewrite Hc.
      split; [done|]. simpl. by rewrite Hx.
Qed.

(** X27. [_handle_value_changes] calls [on_value_change] once for every change
    of a batch, in the order of the batch, also after a call that raised:
    what the callback raises is logged, once for each call that raised, and
    never comes out.  Nothing else of the client changes, and without a
    callback nothing happens at all. *)
Theorem value_changes_dispatched_in_order (c : Client.client)
    (changes : list Models.ValueChange) :
  let c' := Client.handle_value_changes cb c changes in
  Client.transport c' = Client.transport c /\
  Client.sub_manager c' = Client.sub_manager c /\
  Client.retired c' = Client.retired c /\
  (Client.on_value_change cb = None -> c' = c) /\
  (forall f, Client.on_value_change cb = Some f ->
     exists added,
       Client.events c' = Client.events c ++ added /\
       changes_called added = changes /\
       exceptions_logged added
       = (fun _ => "Error in on_value_change callback")
           <$> filter (fun change => raises (f change) = true) changes).
Proof.
  intros c'. subst c'. unfold Client.handle_value_changes.
  destruct (Client.on_value_change cb) as [f|]; simpl.
  - repeat split; try done. intros f' [= <-]. apply dispatch_log.
  - by repeat split.
Qed.

End ClientFacts.

Lemma second_connect_keeps_old_streams_witness :
  Client.sub_manager
    (Client.connect JsonRef.loads JsonRef.str (answering 200 "[]")
       (Client.mk_callbacks None None None None)
       (Client.run JsonRef.loads JsonRef.str (answering 200 "[]")
          (fun _ => true) (Client.mk_callbacks None None None None)
          "http://test-server:8080/" None
          [Client.Connect; Client.StartStream "sub-1"])).1
  = Some SubscriptionManager.init.
Proof.
  apply (proj1 (proj2 (second_connect_keeps_old_streams
                         JsonRef.loads JsonRef.str (answering 200 "[]")
                         (fun _ => true)
                         (Client.mk_callbacks None None None None)
                         "http://test-server:8080/" None
                         [Client.Connect; Client.StartStream "sub-1"] []
                         (add (fun _ => true) SubscriptionManager.init
                              "sub-1")
                         eq_refl))).
Defined.

Lemma stream_control_needs_connection_witness :
  Client.unsubscribe JsonRef.loads JsonRef.str refusing
    (Client.run JsonRef.loads JsonRef.str refusing (fun _ => true)
       (Client.mk_callbacks None None None None)
       "http://test-server:8080/" None [Client.Connect])
    "sub-1"
  = (Client.run JsonRef.loads JsonRef.str refusing (fun _ => true)
       (Client.mk_callbacks None None None None)
       "http://test-server:8080/" None [Client.Connect],
     Raise not_connected).
Proof.
  apply (proj2 (proj2 (stream_control_needs_connection
                         JsonRef.loads JsonRef.str refusing (fun _ => true)
                         (Client.mk_callbacks None None None None)
                         "http://test-server:8080/" None [Client.Connect]
                         "sub-1" eq_refl))).
Defined.

